(** * atlite/resource.py: rated capacities and power-curve smoothing

    A shallow embedding of [atlite/resource.py] and a verification of the
    statements its specification makes about it.

    Numbers.  Python floats and numpy float arrays are rendered as real
    numbers [R] and lists of reals: rounding of binary64 arithmetic is not
    part of this development, and [scipy.signal.fftconvolve] stands for the
    linear convolution it computes.

    Objects.  Python dicts are mutable and shared, so they live in a heap
    of dict objects addressed by locations; a function that writes to a
    dict ([dict.setdefault], item assignment) is a state transformer.
    Functions that only read their dict argument take its contents.

    Exceptions are identified by the name of their class. *)

From Stdlib Require Import Reals Lra Lia List Sorted.
From stdpp Require Import gmap strings list fin_maps.

(** ** Python values, exceptions and dict objects *)

Module Py.

Inductive pyval : Type :=
| VNum (r : R)            (* float *)
| VArr (a : list R)       (* sequence of floats: list or 1-d ndarray *)
| VStr (s : string)       (* str *)
| VNone.                  (* None *)

Inductive exn : Type := Exn (cls : string).

Inductive result (A : Type) : Type :=
| Ok (a : A)
| Raise (e : exn).
Global Arguments Ok {A} a.
Global Arguments Raise {A} e.

Definition KeyError : exn := Exn "KeyError".
Definition ValueError : exn := Exn "ValueError".
Definition TypeError : exn := Exn "TypeError".
Definition AttributeError : exn := Exn "AttributeError".
Definition FileNotFoundError : exn := Exn "FileNotFoundError".

(** [raises cls r]: the call whose outcome is [r] ended in an exception
    of class [cls]. *)
Definition raises {A} (cls : string) (r : result A) : Prop :=
  r = Raise (Exn cls).

#[global] Instance result_ret : MRet result := λ A a, Ok a.
#[global] Instance result_bind : MBind result := λ A B f m,
  match m with
  | Ok a => f a
  | Raise e => Raise e
  end.

(** [d[k]] *)
Definition getitem (d : gmap string pyval) (k : string) : result pyval :=
  match d !! k with
  | Some v => Ok v
  | None => Raise KeyError
  end.

(** A value used in float arithmetic.  Only floats are in the contract
    of the functions below; any other value is rendered as [TypeError]. *)
Definition as_num (v : pyval) : result R :=
  match v with
  | VNum r => Ok r
  | _ => Raise TypeError
  end.

(** A value handed to numpy as a 1-d array of floats.  For any other value
    numpy fails on conversion, rendered as [ValueError]. *)
Definition as_arr (v : pyval) : result (list R) :=
  match v with
  | VArr a => Ok a
  | _ => Raise ValueError
  end.

(** [v == s] for a string literal [s] *)
Definition eq_str (v : pyval) (s : string) : bool :=
  match v with
  | VStr s' => bool_decide (s' = s)
  | _ => false
  end.

End Py.
Export Py.

(** ** The numpy and scipy functions the module calls *)

Module Np.
Local Open Scope R_scope.

Definition Rltb (x y : R) : bool := if Rlt_dec x y then true else false.
Definition Rgtb (x y : R) : bool := if Rgt_dec x y then true else false.
Definition Reqb (x y : R) : bool := if Req_dec_T x y then true else false.

(** [np.linspace(start, stop, num)]: [num] evenly spaced samples with both
    endpoints, [start + i * step] with [step = (stop - start) / (num - 1)]. *)
Definition linspace (start stop : R) (num : nat) : list R :=
  map (λ i : nat, start + INR i * ((stop - start) / INR (num - 1))) (seq 0 num).

(** [np.interp] at one point.  [interp_from x x0 y0 pts] is entered with
    [x0 <= x]: it walks to the first sample point beyond [x] and
    interpolates on the segment ending there; past the last sample point
    the value is the last [fp] (the default [right]). *)
Fixpoint interp_from (x x0 y0 : R) (pts : list (R * R)) : R :=
  match pts with
  | [] => y0
  | (x1, y1) :: pts' =>
      if Rlt_dec x x1
      then (y1 - y0) / (x1 - x0) * (x - x0) + y0
      else interp_from x x1 y1 pts'
  end.

Definition interp1 (xp fp : list R) (x : R) : R :=
  match combine xp fp with
  | [] => 0
  | (x0, y0) :: pts =>
      if Rlt_dec x x0 then y0     (* the default [left]: fp[0] *)
      else interp_from x x0 y0 pts
  end.

(** [np.interp(x, xp, fp)] for sequences [xp], [fp]: empty sample points
    and sample sequences of different lengths are a [ValueError]. *)
Definition interp (x xp fp : list R) : result (list R) :=
  if bool_decide (xp = [])%list then Raise ValueError
  else if bool_decide (length fp ≠ length xp) then Raise ValueError
  else Ok (map (interp1 xp fp) x).

(** Entry [n] of the full linear convolution: the sum of [a[k] * b[n-k]]. *)
Definition convolve_at (a b : list R) (n : nat) : R :=
  fold_right Rplus 0
    (map (λ k : nat, nth k a 0 * nth (n - k) b 0) (seq 0 (S n))).

(** [fftconvolve(a, b, mode='same')]: the part of the full convolution
    of the size of [a], centred in it; the full convolution has
    [len a + len b - 1] entries, so the part starts at [(len b - 1) // 2]. *)
Definition fftconvolve_same (a b : list R) : list R :=
  map (λ i : nat, convolve_at a b (i + (length b - 1) / 2)%nat)
      (seq 0 (length a)).

(** [np.max(a)]: a [ValueError] on an empty array. *)
Definition amax (a : list R) : result R :=
  match a with
  | [] => Raise ValueError
  | x :: a' => Ok (fold_left Rmax a' x)
  end.

End Np.

(** ** atlite/resource.py *)

Module Resource.
Local Open Scope R_scope.
Import Np.

(** *** The heap of dict objects and the logger *)

(** Objects are named by locations.  A location that holds no dict stands
    for an object that is not a dict: method and item access on it
    fail. *)
Abbreviation loc := positive (only parsing).

Record state : Type := State {
  heap : gmap positive (gmap string pyval);   (* the dict objects *)
  log : list string                           (* what [logger] has emitted *)
}.

(** Computations that read and write the heap and may raise. *)
Definition M (A : Type) : Type := state → result A * state.

#[global] Instance M_ret : MRet M := λ A a σ, (Ok a, σ).
#[global] Instance M_bind : MBind M := λ A B f m σ,
  match m σ with
  | (Ok a, σ') => f a σ'
  | (Raise e, σ') => (Raise e, σ')
  end.

Definition lift {A} (r : result A) : M A := λ σ, (r, σ).

(** [{}] and [dict(...)]: a new dict object at the next free location *)
Definition new_dict (d : gmap string pyval) : M loc := λ σ,
  let l := fresh (dom (heap σ)) in
  (Ok l, State (<[l := d]> (heap σ)) (log σ)).

(** [d.setdefault(k, v)] *)
Definition dict_setdefault (l : loc) (k : string) (v : pyval) : M pyval := λ σ,
  match heap σ !! l with
  | None => (Raise AttributeError, σ)
  | Some d =>
      match d !! k with
      | Some v' => (Ok v', σ)
      | None => (Ok v, State (<[l := <[k := v]> d]> (heap σ)) (log σ))
      end
  end.

(** [d.copy()]: a new dict object with the same items *)
Definition dict_copy (l : loc) : M loc := λ σ,
  match heap σ !! l with
  | None => (Raise AttributeError, σ)
  | Some d => new_dict d σ
  end.

(** [d[k]] *)
Definition dict_getitem (l : loc) (k : string) : M pyval := λ σ,
  match heap σ !! l with
  | None => (Raise TypeError, σ)
  | Some d => (getitem d k, σ)
  end.

(** [d[k] = v] *)
Definition dict_setitem (l : loc) (k : string) (v : pyval) : M unit := λ σ,
  match heap σ !! l with
  | None => (Raise TypeError, σ)
  | Some d => (Ok tt, State (<[l := <[k := v]> d]> (heap σ)) (log σ))
  end.

(** [logger.warn(msg)] *)
Definition logger_warn (msg : string) : M unit := λ σ,
  (Ok tt, State (heap σ) (log σ ++ [msg])%list).

(** *** Configurations *)

(** A configuration is named (a yaml file, a database entry) or given as
    a dict. *)
Inductive config_arg : Type :=
| ByName (name : string)
| ByDict (d : gmap string pyval).

(** [np.max(POW)] on a value of a raw configuration *)
Definition np_max (v : pyval) : result R :=
  match v with
  | VArr a => amax a
  | VNum r => Ok r
  | _ => Raise TypeError
  end.

Section Loader.
(** Lines 57-79 of [get_windturbineconfig] resolve a turbine name to a
    raw configuration, from the local yaml file or from the Open Energy
    Database, by functions of other modules; [None] is no match. *)
Variable retrieve_turbineconf : string → result (option (gmap string pyval)).

(** The yaml files of [config.solarpanel_dir], by base name, as
    [yaml.safe_load] returns them. *)
Variable solarpanel_files : gmap string (gmap string pyval).

Definition get_windturbineconfig (turbine : string)
  : result (gmap string pyval) :=
  turbineconf ← retrieve_turbineconf turbine;
  match turbineconf with
  | None => Raise ValueError
  | Some turbineconf =>
      V ← getitem turbineconf "V";
      POW ← getitem turbineconf "POW";
      hub_height ← getitem turbineconf "HUB_HEIGHT";
      P ← np_max POW;
      Ok (<["V" := V]> (<["POW" := POW]> (<["hub_height" := hub_height]>
           (<["P" := VNum P]> ∅))))
  end.

Definition get_solarpanelconfig (panel : string)
  : result (gmap string pyval) :=
  match solarpanel_files !! panel with
  | Some panelconf => Ok panelconf
  | None => Raise FileNotFoundError
  end.

Definition solarpanel_rated_capacity_per_unit (panel : config_arg)
  : result pyval :=
  panel ← match panel with
          | ByName name => get_solarpanelconfig name
          | ByDict d => Ok d
          end;
  let model := default (VStr "huld") (panel !! "model") in
  if eq_str model "huld" then
    getitem panel "efficiency"
  else if eq_str model "bofinger" then
    A ← getitem panel "A";
    B ← getitem panel "B";
    C ← getitem panel "C";
    A ← as_num A;
    B ← as_num B;
    C ← as_num C;
    Ok (VNum ((A + B * 1000 + C * ln 1000) * 1000))
  else
    Ok VNone.

Definition windturbine_rated_capacity_per_unit (turbine : config_arg)
  : result pyval :=
  turbine ← match turbine with
            | ByName name => get_windturbineconfig name
            | ByDict d => Ok d
            end;
  getitem turbine "P".
End Loader.

(** *** windturbine_smooth *)

(** The argument [params] of a call: a dict object or another value. *)
Inductive pyarg : Type :=
| PDict (l : loc)
| PValue (v : pyval).

(** The object of the default [params={}]: one dict, made when the module
    is loaded. *)
Definition params_default : loc := 1%positive.

Definition import_state : state :=
  State (<[params_default := ∅]> ∅) [].

Definition kernel (Delta_v sigma : R) (v_0 : R) : R :=
  1 / sqrt (2 * PI * sigma * sigma) *
  exp ((- (v_0 - Delta_v)) * (v_0 - Delta_v) / (2 * sigma * sigma)).

Definition smooth (eta Delta_v sigma : pyval) (velocities power : pyval)
  : result (list R * list R) :=
  let velocities_reg := linspace (-50) 50 1001 in
  velocities ← as_arr velocities;
  power ← as_arr power;
  power_reg ← interp velocities_reg velocities power;
  sigma ← as_num sigma;
  Delta_v ← as_num Delta_v;
  let kernel_reg := map (kernel Delta_v sigma) velocities_reg in
  let convolution := map (Rmult 0.1) (fftconvolve_same power_reg kernel_reg) in
  let velocities_new := linspace 0 35 72 in
  power_new ← interp velocities_new velocities_reg convolution;
  eta ← as_num eta;
  Ok (velocities_new, map (Rmult eta) power_new).

(** The power curve [smooth] returns when it returns one. *)
Definition smooth_power (eta Delta_v sigma : R) (velocities power : list R)
  : list R :=
  let velocities_reg := linspace (-50) 50 1001 in
  let power_reg := map (interp1 velocities power) velocities_reg in
  let kernel_reg := map (kernel Delta_v sigma) velocities_reg in
  let convolution := map (Rmult 0.1) (fftconvolve_same power_reg kernel_reg) in
  map (Rmult eta) (map (interp1 velocities_reg convolution) (linspace 0 35 72)).

(** [any(POW[np.where(V == 0.0)] > 1e-2)] *)
Definition oversmoothed (V POW : list R) : bool :=
  existsb (λ vp : R * R, Reqb vp.1 0 && Rgtb vp.2 0.01) (combine V POW).

(** The message of line 179: [format] applies to the second literal only,
    which has no field, so the braces stay. *)
Definition oversmoothing_msg : string :=
  "Oversmoothing detected with parameters {p}. Turbine generates energy at 0 m/s wind speeds".

Definition windturbine_smooth (turbine : loc) (params : option pyarg) : M loc :=
  let params := default (PDict params_default) params in
  params ← match params with
           | PDict l => mret l
           | PValue _ => new_dict ∅
           end;
  eta ← dict_setdefault params "eta" (VNum 0.95);
  Delta_v ← dict_setdefault params "Delta_v" (VNum 1.27);
  sigma ← dict_setdefault params "sigma" (VNum 2.29);
  turbine ← dict_copy turbine;
  V ← dict_getitem turbine "V";
  POW ← dict_getitem turbine "POW";
  '(V, POW) ← lift (smooth eta Delta_v sigma V POW);
  _ ← dict_setitem turbine "V" (VArr V);
  _ ← dict_setitem turbine "POW" (VArr POW);
  POW ← dict_getitem turbine "POW";
  P ← lift (np_max POW);
  _ ← dict_setitem turbine "P" (VNum P);
  POW ← dict_getitem turbine "POW";
  V ← dict_getitem turbine "V";
  POW ← lift (as_arr POW);
  V ← lift (as_arr V);
  _ ← (if oversmoothed V POW then logger_warn oversmoothing_msg else mret tt);
  mret turbine.

End Resource.

(** ** The vocabulary of the specification *)

Module Spec.
Local Open Scope R_scope.
Import Np Resource.

(** The regular evaluation grid: 1001 points from -50 m/s at 0.1 m/s
    spacing. *)
Definition regular_grid : list R :=
  map (λ i : nat, -50 + 0.1 * INR i) (seq 0 1001).

(** The output grid: 72 evenly spaced points spanning [0, 35] m/s. *)
Definition output_grid : list R :=
  map (λ i : nat, 35 * INR i / 71) (seq 0 72).

(** The Gaussian kernel with standard deviation [sigma] and mean offset
    [delta_v]. *)
Definition gaussian (sigma delta_v v : R) : R :=
  (1 / sqrt (2 * PI * sigma ^ 2)) * exp (- (v - delta_v) ^ 2 / (2 * sigma ^ 2)).

(** The sum of a finite sequence. *)
Definition total (l : list R) : R := fold_right Rplus 0 l.

(** Entry [n] of the linear convolution of [a] and [b]: the sum of the
    products [a_i * b_j] over the pairs of positions with [i + j = n]. *)
Definition convolution_entry (a b : list R) (n : nat) : R :=
  total (map (λ i : nat,
           total (map (λ j : nat,
                    if (i + j =? n)%nat then nth i a 0 * nth j b 0 else 0)
                  (seq 0 (length b))))
         (seq 0 (length a))).

(** The linear convolution of two sequences: [length a + length b - 1]
    entries. *)
Definition linear_convolution (a b : list R) : list R :=
  map (convolution_entry a b) (seq 0 (length a + length b - 1)).

(** The length-preserving ('same') convolution: the [length a] entries in
    the middle of the linear convolution. *)
Definition same_convolution (a b : list R) : list R :=
  let full := linear_convolution a b in
  take (length a) (drop ((length full - length a) / 2) full).
(** [interpolates xp fp x y]: [y] is the value at [x] of the piecewise
    linear curve through the points [(xp, fp)], flat beyond its
    endpoints. *)
Definition interpolates (xp fp : list R) (x y : R) : Prop :=
  (∃ x0 y0, head xp = Some x0 ∧ head fp = Some y0 ∧ x <= x0 ∧ y = y0) ∨
  (∃ xn yn, last xp = Some xn ∧ last fp = Some yn ∧ xn <= x ∧ y = yn) ∨
  (∃ (i : nat) x0 x1 y0 y1,
      xp !! i = Some x0 ∧ xp !! S i = Some x1 ∧
      fp !! i = Some y0 ∧ fp !! S i = Some y1 ∧
      x0 <= x <= x1 ∧ x0 < x1 ∧
      y = y0 + (y1 - y0) * ((x - x0) / (x1 - x0))).

(** Strictly ascending sample points. *)
Definition ascending (xp : list R) : Prop := StronglySorted Rlt xp.

(** [resamples xp fp xs ys]: [ys] is the curve through [(xp, fp)]
    resampled at the points [xs], the one sequence of its values there. *)
Definition resamples (xp fp xs ys : list R) : Prop :=
  Forall2 (interpolates xp fp) xs ys ∧
  ∀ ys', Forall2 (interpolates xp fp) xs ys' → ys' = ys.

(** [m] is the maximum of the sequence [a]. *)
Definition maximum_of (a : list R) (m : R) : Prop :=
  m ∈ a ∧ ∀ x, x ∈ a → x <= m.

(** [d.setdefault(k, v)] on the items of a dict. *)
Definition with_default (k : string) (v : pyval) (d : gmap string pyval)
  : gmap string pyval :=
  match d !! k with
  | Some _ => d
  | None => <[k := v]> d
  end.

(** The items of a parameter dict once the defaults of Andresen et al.
    are filled in. *)
Definition with_defaults (d : gmap string pyval) : gmap string pyval :=
  with_default "sigma" (VNum 2.29)
    (with_default "Delta_v" (VNum 1.27)
       (with_default "eta" (VNum 0.95) d)).

(** The dict object a call reads its parameters from: the argument when
    it is a dict, the shared default object when it is omitted, and a new
    empty dict when it is another value. *)
Definition params_object (σ : state) (params : option pyarg)
  : option (gmap string pyval) :=
  match default (PDict params_default) params with
  | PDict l => heap σ !! l
  | PValue _ => Some ∅
  end.

(** The location of that object; a new dict takes the next free one. *)
Definition params_loc (σ : state) (params : option pyarg) : loc :=
  match default (PDict params_default) params with
  | PDict l => l
  | PValue _ => fresh (dom (heap σ))
  end.

(** The items of the config a call returns: those of the copy [d] with
    [V], [POW] and [P] replaced. *)
Definition smoothed_config (d : gmap string pyval) (V POW : list R) (P : R)
  : gmap string pyval :=
  <["P" := VNum P]> (<["POW" := VArr POW]> (<["V" := VArr V]> d)).

(** What lines 175-176 compute from the items [d] of the copied config and
    the items [dp] of the parameter object once the defaults are in: the
    new [V], [POW] and [P], or the exception raised on the way. *)
Definition smooth_outcome (dp d : gmap string pyval)
  : result (list R * list R * R) :=
  V ← getitem d "V";
  POW ← getitem d "POW";
  '(V', POW') ← smooth (default (VNum 0.95) (dp !! "eta"))
                       (default (VNum 1.27) (dp !! "Delta_v"))
                       (default (VNum 2.29) (dp !! "sigma")) V POW;
  P ← amax POW';
  Ok (V', POW', P).

(** [r] is the result and final state of a call that copied the config to
    the new location [t'] in heap [h] and went on to the outcome [o]: on
    success the copy holds the smoothed config and the warning is logged
    when the curve is oversmoothed; on an exception the log is as it was
    and only the copy may differ. *)
Definition ends_with (h : gmap positive (gmap string pyval))
    (lg : list string) (t' : loc) (d : gmap string pyval)
    (o : result (list R * list R * R)) (r : result loc * state) : Prop :=
  match o with
  | Ok (V', POW', P) =>
      r = (Ok t',
           State (<[t' := smoothed_config d V' POW' P]> h)
                 (lg ++ (if oversmoothed V' POW' then [oversmoothing_msg]
                         else []))%list)
  | Raise e => ∃ d', r = (Raise e, State (<[t' := d']> h) lg)
  end.

(** The call is made with parameter values [eta], [delta_v], [sigma]:
    each is the item of the parameter object, or the default when the
    object has no such item. *)
Definition called_with (σ : state) (params : option pyarg)
    (eta delta_v sigma : R) : Prop :=
  ∃ dp, params_object σ params = Some dp ∧
        default (VNum 0.95) (dp !! "eta") = VNum eta ∧
        default (VNum 1.27) (dp !! "Delta_v") = VNum delta_v ∧
        default (VNum 2.29) (dp !! "sigma") = VNum sigma.

(** A well-formed power curve: a dict object with non-empty [V] and [POW]
    of equal length. *)
Definition power_curve (σ : state) (turbine : loc) (V POW : list R) : Prop :=
  ∃ d, heap σ !! turbine = Some d ∧
       d !! "V" = Some (VArr V) ∧ d !! "POW" = Some (VArr POW) ∧
       V ≠ [] ∧ length POW = length V.

(** What a caller sees of a call: the exception, or the items [V], [POW]
    and [P] of the returned config. *)
Definition observed (r : result loc * state)
  : result (option pyval * option pyval * option pyval) :=
  match r.1 with
  | Ok t' =>
      let d' := default ∅ (heap r.2 !! t') in
      Ok (d' !! "V", d' !! "POW", d' !! "P")
  | Raise e => Raise e
  end.

(** The same of an outcome of lines 175-176. *)
Definition outcome_view (o : result (list R * list R * R))
  : result (option pyval * option pyval * option pyval) :=
  match o with
  | Ok (V', POW', P) => Ok (Some (VArr V'), Some (VArr POW'), Some (VNum P))
  | Raise e => Raise e
  end.

(** The valid turbine configs: a name [get_windturbineconfig] loads a
    config for, or a dict the module has made, by
    [get_windturbineconfig] or by [windturbine_smooth].
    [valid_turbine retrieve turbine d]: the argument [turbine] is valid
    and stands for the config with items [d]. *)
Inductive valid_turbine
    (retrieve_turbineconf : string → result (option (gmap string pyval)))
  : config_arg → gmap string pyval → Prop :=
| valid_name name d :
    get_windturbineconfig retrieve_turbineconf name = Ok d →
    valid_turbine retrieve_turbineconf (ByName name) d
| valid_loaded name d :
    get_windturbineconfig retrieve_turbineconf name = Ok d →
    valid_turbine retrieve_turbineconf (ByDict d) d
| valid_smoothed turbine params σ t' σ' d :
    windturbine_smooth turbine params σ = (Ok t', σ') →
    heap σ' !! t' = Some d →
    valid_turbine retrieve_turbineconf (ByDict d) d.

End Spec.

(** ** Sample configurations *)

Module Example.
Local Open Scope R_scope.
Import Resource.

(** The turbine of the end-to-end scenario of the specification. *)
Definition V : list R := [0; 5; 10; 15; 20; 25].
Definition POW : list R := [0; 0; 100; 400; 800; 800].

Definition turbine : gmap string pyval :=
  <["V" := VArr V]> (<["POW" := VArr POW]> (<["hub_height" := VNum 80]>
    (<["P" := VNum 800]> ∅))).

(** The module is loaded, the turbine dict is object 2 and a caller's
    [params = {}] is object 3. *)
Definition state0 : state :=
  State (<[3%positive := ∅]> (<[2%positive := turbine]> (heap import_state))) [].

(** A raw configuration as [yaml.safe_load] gives it. *)
Definition turbineconf : gmap string pyval :=
  <["V" := VArr V]> (<["POW" := VArr POW]> (<["HUB_HEIGHT" := VNum 80]> ∅)).

(** A raw configuration with an empty power curve. *)
Definition empty_turbineconf : gmap string pyval :=
  <["V" := VArr []]> (<["POW" := VArr []]> (<["HUB_HEIGHT" := VNum 80]> ∅)).

Definition retrieve (name : string)
  : result (option (gmap string pyval)) :=
  if bool_decide (name = "example") then Ok (Some turbineconf)
  else if bool_decide (name = "empty") then Ok (Some empty_turbineconf)
  else Ok None.

(** A turbine dict with an empty power curve. *)
Definition empty_curve : gmap string pyval :=
  <["V" := VArr []]> (<["POW" := VArr []]> (<["hub_height" := VNum 80]>
    (<["P" := VNum 0]> ∅))).

(** Panel configs: without a model tag, with the bofinger model of the
    specification, and with a tag the module does not know. *)
Definition panel_untagged : gmap string pyval :=
  <["efficiency" := VNum 0.1]> ∅.

Definition panel_bofinger : gmap string pyval :=
  <["model" := VStr "bofinger"]> (<["A" := VNum 0]>
    (<["B" := VNum 0.0005]> (<["C" := VNum 0.0001]> ∅))).

Definition panel_unknown : gmap string pyval :=
  <["model" := VStr "unknown"]> (<["efficiency" := VNum 0.1]> ∅).

End Example.

(** ** Loading turbine configurations, and the registries *)

Module Loading.
Import Resource.

(** [d.get(k)] *)
Definition dict_get (l : loc) (k : string) : M (option pyval) := λ σ,
  match heap σ !! l with
  | None => (Raise AttributeError, σ)
  | Some d => (Ok (d !! k), σ)
  end.

(** [x is None] for the result of [d.get(k)] *)
Definition is_none (o : option pyval) : bool :=
  match o with
  | None | Some VNone => true
  | Some _ => false
  end.

(** [v + s] for a string literal [s]: [v] has to be a str *)
Definition str_add (v : pyval) (s : string) : result string :=
  match v with
  | VStr s' => Ok (s' +:+ s)
  | _ => Raise TypeError
  end.

(** The warning of lines 66-67, two adjacent literals. *)
Definition source_warning : string :=
  "No key 'source':'oedb' provided with the turbine dictionary.I am assuming and adding it for now, but still nag you about it.".

(** Lines 81-85 of [get_windturbineconfig]: the config made from the raw
    configuration. *)
Definition make_config (turbineconf : option (gmap string pyval))
  : result (gmap string pyval) :=
  match turbineconf with
  | None => Raise ValueError
  | Some turbineconf =>
      V ← getitem turbineconf "V";
      POW ← getitem turbineconf "POW";
      hub_height ← getitem turbineconf "HUB_HEIGHT";
      P ← np_max POW;
      Ok (<["V" := V]> (<["POW" := POW]> (<["hub_height" := hub_height]>
           (<["P" := VNum P]> ∅))))
  end.

Section GetConfig.
(** [download_turbineconf(turbine, store_locally=False)] of [atlite.wind],
    called with the str or the dict object; what it does to the heap and
    the log is its own business.  [None] is no match. *)
Variable download_turbineconf : pyarg → M (option (gmap string pyval)).

(** [yaml.safe_load] of the file of that name in [config.windturbine_dir]
    (lines 73-77). *)
Variable read_yaml : string → result (option (gmap string pyval)).

(** [get_windturbineconfig(turbine)] for a str, a dict object or another
    value.  The dict it returns is new and is given by its items. *)
Definition get_windturbineconfig (turbine : pyarg)
  : M (gmap string pyval) :=
  '(turbineconf, turbine) ←
    match turbine with
    | PValue (VStr name) =>
        if String.prefix "oedb:" name then
          turbineconf ← download_turbineconf turbine;
          mret (turbineconf, turbine)
        else
          l ← new_dict (<["filename" := VStr name]>
                          (<["source" := VStr "local"]> ∅));
          mret (None, PDict l)
    | _ => mret (None, turbine)
    end;
  turbineconf ←
    match turbine with
    | PDict l =>
        source ← dict_get l "source";
        _ ← (if is_none source then
               _ ← logger_warn source_warning;
               dict_setitem l "source" (VStr "oedb")
             else mret tt);
        source ← dict_getitem l "source";
        if eq_str source "oedb" then
          download_turbineconf turbine
        else if eq_str source "local" then
          filename ← dict_getitem l "filename";
          res_name ← lift (str_add filename ".yaml");
          lift (read_yaml res_name)
        else
          lift (Raise ValueError)
    | PValue _ => mret turbineconf
    end;
  lift (make_config turbineconf).
End GetConfig.

(** [t[:-5]] *)
Definition strip5 (t : string) : string :=
  String.substring 0 (String.length t - 5) t.

(** Lines 185-191: the dict [{t[:-5]: t[:-5] for t in os.listdir(dir)}]
    that [turbines] and [panels] wrap, for the listing of the
    directory. *)
Definition registry (listing : list string) : gmap string string :=
  foldl (λ m t, <[strip5 t := strip5 t]> m) ∅ listing.

End Loading.

(** ** More sample data *)

Module Sample.
Local Open Scope R_scope.
Import Resource.

(** A turbine dict whose [POW] is one value short, a turbine that
    produces nothing, and the turbine of [Example] in W instead of kW. *)
Definition short_turbine : gmap string pyval :=
  <["V" := VArr [0; 5; 10]]> (<["POW" := VArr [0; 100]]> ∅).

Definition idle_turbine : gmap string pyval :=
  <["V" := VArr [0; 25]]> (<["POW" := VArr [0; 0]]> ∅).

Definition turbine_in_W : gmap string pyval :=
  <["V" := VArr Example.V]>
    (<["POW" := VArr (map (Rmult 1000) Example.POW)]> ∅).

(** A caller's parameters [{'eta': 1.0}]. *)
Definition params_eta_1 : gmap string pyval := <["eta" := VNum 1]> ∅.

(** The heap of [Example.state0] with these as objects 4 to 7. *)
Definition state1 : state :=
  State (<[7%positive := params_eta_1]>
          (<[6%positive := turbine_in_W]>
            (<[5%positive := idle_turbine]>
              (<[4%positive := short_turbine]> (heap Example.state0))))) [].

(** Turbine dicts for [get_windturbineconfig]: without a source, tagged
    with an unknown source, and tagged local. *)
Definition untagged_query : gmap string pyval := <["name" := VStr "E-82"]> ∅.

Definition bad_source : gmap string pyval := <["source" := VStr "web"]> ∅.

Definition local_query : gmap string pyval :=
  <["source" := VStr "local"]> (<["filename" := VStr "example"]> ∅).

Definition state2 : state :=
  State (<[3%positive := local_query]>
          (<[2%positive := bad_source]>
            (<[1%positive := untagged_query]> ∅))) [].

(** A database without entries, and the one yaml file [example.yaml]. *)
Definition no_download (turbine : pyarg) : M (option (gmap string pyval)) :=
  mret None.

Definition read_yaml (name : string) : result (option (gmap string pyval)) :=
  if bool_decide (name = "example.yaml") then Ok (Some Example.turbineconf)
  else Raise FileNotFoundError.

(** A bofinger panel that lacks the coefficient C, and one with larger
    coefficients than [Example.panel_bofinger]. *)
Definition panel_no_C : gmap string pyval :=
  <["model" := VStr "bofinger"]> (<["A" := VNum 0]>
    (<["B" := VNum 0.0005]> ∅)).

Definition panel_larger : gmap string pyval :=
  <["model" := VStr "bofinger"]> (<["A" := VNum 0.1]>
    (<["B" := VNum 0.0006]> (<["C" := VNum 0.0001]> ∅))).

(** A listing of the turbine directory. *)
Definition listing : list string := ["example.yaml"; "README.md"].

End Sample.

(** ** Facts about the numpy functions *)

Section NpFacts.
Local Open Scope R_scope.
Import Np.

Lemma INR_1000 : INR 1000 = 1000.
Proof. rewrite INR_IZR_INZ. reflexivity. Qed.

Lemma INR_71 : INR 71 = 71.
Proof. rewrite INR_IZR_INZ. reflexivity. Qed.

Lemma length_linspace start stop num : length (linspace start stop num) = num.
Proof. unfold linspace. by rewrite length_map, length_seq. Qed.

Lemma linspace_regular_grid : linspace (-50) 50 1001 = Spec.regular_grid.
Proof.
  unfold linspace, Spec.regular_grid. apply map_ext. intros i.
  replace (1001 - 1)%nat with 1000%nat by reflexivity.
  rewrite INR_1000. lra.
Qed.

Lemma linspace_output_grid : linspace 0 35 72 = Spec.output_grid.
Proof.
  unfold linspace, Spec.output_grid. apply map_ext. intros i.
  replace (72 - 1)%nat with 71%nat by reflexivity.
  rewrite INR_71. lra.
Qed.

Lemma combine_fst_snd (xp fp : list R) :
  length fp = length xp →
  (combine xp fp).*1 = xp ∧ (combine xp fp).*2 = fp.
Proof.
  revert fp. induction xp as [|x xp IH]; intros [|y fp] Hlen;
    simplify_eq/=; try done.
  destruct (IH fp) as [H1 H2]; [done|].
  by rewrite H1, H2.
Qed.

Lemma interp_from_interpolates pts : ∀ (pre : list (R * R)) x x0 y0,
  x0 <= x →
  Spec.interpolates (pre.*1 ++ x0 :: pts.*1) (pre.*2 ++ y0 :: pts.*2)
    x (interp_from x x0 y0 pts).
Proof.
  induction pts as [|[x1 y1] pts IH]; intros pre x x0 y0 Hx; simpl.
  - right; left. exists x0, y0.
    by rewrite !last_snoc.
  - destruct (Rlt_dec x x1) as [Hlt|Hge].
    + right; right.
      exists (length pre), x0, x1, y0, y1.
      assert (Hl1 : length pre.*1 = length pre) by apply length_fmap.
      assert (Hl2 : length pre.*2 = length pre) by apply length_fmap.
      repeat split.
      * by apply list_lookup_middle.
      * rewrite (cons_middle x0), app_assoc.
        apply list_lookup_middle. rewrite length_app; simpl; lia.
      * by apply list_lookup_middle.
      * rewrite (cons_middle y0), app_assoc.
        apply list_lookup_middle. rewrite length_app; simpl; lia.
      * done.
      * lra.
      * lra.
      * field. lra.
    + specialize (IH (pre ++ [(x0, y0)]) x x1 y1).
      rewrite !fmap_app, <- !app_assoc in IH. simpl in IH.
      apply IH. lra.
Qed.

(** [np.interp] computes the piecewise linear curve of the specification. *)
Lemma interp1_interpolates xp fp x :
  xp ≠ [] → length fp = length xp →
  Spec.interpolates xp fp x (interp1 xp fp x).
Proof.
  intros Hne Hlen. unfold interp1.
  destruct (combine_fst_snd xp fp Hlen) as [Hxp Hfp].
  destruct (combine xp fp) as [|[x0 y0] pts] eqn:Hc.
  - simpl in Hxp. congruence.
  - simpl in Hxp, Hfp. subst xp fp.
    destruct (Rlt_dec x x0) as [Hlt|Hge].
    + left. exists x0, y0. repeat split; simpl; try done. lra.
    + apply (interp_from_interpolates pts [] x x0 y0). lra.
Qed.

Lemma interp_ok x xp fp :
  xp ≠ [] → length fp = length xp →
  interp x xp fp = Ok (map (interp1 xp fp) x).
Proof.
  intros Hne Hlen. unfold interp.
  rewrite bool_decide_eq_false_2 by done.
  rewrite bool_decide_eq_false_2; [done | ]. intros H; by apply H.
Qed.

Lemma interp_Forall2 x xp fp :
  xp ≠ [] → length fp = length xp →
  Forall2 (Spec.interpolates xp fp) x (map (interp1 xp fp) x).
Proof.
  intros Hne Hlen. induction x as [|a x IH]; simpl; constructor; try done.
  by apply interp1_interpolates.
Qed.

Lemma fold_left_Rmax (a : list R) : ∀ x,
  (fold_left Rmax a x = x ∨ fold_left Rmax a x ∈ a) ∧
  x <= fold_left Rmax a x ∧
  ∀ y, y ∈ a → y <= fold_left Rmax a x.
Proof.
  induction a as [|z a IH]; intros x; simpl.
  - split; [by left|]. split; [lra|]. intros y Hy. by apply elem_of_nil in Hy.
  - destruct (IH (Rmax x z)) as (Hin & Hle & Hall).
    split; [|split].
    + destruct Hin as [Heq|Hin]; [|right; by apply list_elem_of_further].
      rewrite Heq. unfold Rmax.
      destruct (Rle_dec x z); [right; apply list_elem_of_here | by left].
    + pose proof (Rmax_l x z). lra.
    + intros y Hy. apply elem_of_cons in Hy as [->|Hy]; [|by apply Hall].
      pose proof (Rmax_r x z). lra.
Qed.

(** [np.max] returns the maximum. *)
Lemma amax_maximum a : a ≠ [] → ∃ m, amax a = Ok m ∧ Spec.maximum_of a m.
Proof.
  destruct a as [|x a]; [done|]. intros _. simpl.
  exists (fold_left Rmax a x). split; [done|].
  destruct (fold_left_Rmax a x) as (Hin & Hle & Hall).
  split.
  - destruct Hin as [->|Hin];
      [apply list_elem_of_here | by apply list_elem_of_further].
  - intros y Hy. apply elem_of_cons in Hy as [->|Hy]; [done|by apply Hall].
Qed.

Lemma length_fftconvolve_same a b : length (fftconvolve_same a b) = length a.
Proof. unfold fftconvolve_same. by rewrite length_map, length_seq. Qed.

Lemma ascending_lookup xp (i j : nat) a b :
  Spec.ascending xp → xp !! i = Some a → xp !! j = Some b →
  (i < j)%nat → a < b.
Proof.
  unfold Spec.ascending. intros H. revert i j a b.
  induction H as [|x l Hl IH HF]; intros i j a b Hi Hj Hlt.
  - by rewrite lookup_nil in Hi.
  - destruct j as [|j]; [lia|]. destruct i as [|i]; simpl in Hi, Hj.
    + injection Hi as <-. rewrite Forall_forall in HF. apply HF.
      by eapply list_elem_of_lookup_2.
    + apply (IH i j); [done..|lia].
Qed.

Lemma ascending_lookup_le xp (i j : nat) a b :
  Spec.ascending xp → xp !! i = Some a → xp !! j = Some b →
  a <= b → (i <= j)%nat.
Proof.
  intros Hasc Hi Hj Hle. destruct (le_lt_dec i j) as [|Hlt]; [done|].
  pose proof (ascending_lookup xp j i b a Hasc Hj Hi Hlt). lra.
Qed.

(** On ascending sample points the curve has one value at each point:
    left of the first sample point, right of the last, and on two
    segments that both hold the point. *)
Lemma interpolates_left xp fp x0 y0 x y :
  Spec.ascending xp → length fp = length xp →
  head xp = Some x0 → head fp = Some y0 → x <= x0 →
  Spec.interpolates xp fp x y → y = y0.
Proof.
  intros Hasc Hlen Hx0 Hy0 Hx. rewrite head_lookup in Hx0, Hy0.
  intros [(x0' & y0' & Hx0' & Hy0' & _ & ->)|[(xn & yn & Hxn & Hyn & Hge & ->)|
          (i & a & b & ya & yb & Ha & Hb & Hya & Hyb & Hin & Hlt & ->)]].
  - rewrite head_lookup in Hy0'. congruence.
  - rewrite last_lookup in Hxn, Hyn. rewrite Hlen in Hyn.
    assert (Hle : (pred (length xp) <= 0)%nat)
      by (eapply (ascending_lookup_le xp); [done..|lra]).
    replace (pred (length xp)) with 0%nat in Hyn by lia. congruence.
  - assert (Hle : (i <= 0)%nat)
      by (eapply (ascending_lookup_le xp); [done..|lra]).
    replace i with 0%nat in * by lia.
    assert (a = x0) as -> by congruence. assert (ya = y0) as -> by congruence.
    replace x with x0 by lra. field. lra.
Qed.

Lemma interpolates_right xp fp xn yn x y :
  Spec.ascending xp → length fp = length xp →
  last xp = Some xn → last fp = Some yn → xn <= x →
  Spec.interpolates xp fp x y → y = yn.
Proof.
  intros Hasc Hlen Hxn Hyn Hx. rewrite last_lookup in Hxn, Hyn.
  rewrite Hlen in Hyn.
  intros [(x0 & y0 & Hx0 & Hy0 & Hle & ->)|[(xn' & yn' & Hxn' & Hyn' & _ & ->)|
          (i & a & b & ya & yb & Ha & Hb & Hya & Hyb & Hin & Hlt & ->)]].
  - rewrite head_lookup in Hx0, Hy0.
    assert (Hle' : (pred (length xp) <= 0)%nat)
      by (eapply (ascending_lookup_le xp); [done..|lra]).
    replace (pred (length xp)) with 0%nat in Hyn by lia. congruence.
  - rewrite last_lookup, Hlen in Hyn'. congruence.
  - assert (Hle : (pred (length xp) <= S i)%nat)
      by (eapply (ascending_lookup_le xp); [done..|lra]).
    assert (Hlt' : (S i < length xp)%nat) by (by eapply lookup_lt_Some).
    replace (pred (length xp)) with (S i) in * by lia.
    assert (b = xn) as -> by congruence. assert (yb = yn) as -> by congruence.
    replace x with xn by lra. field. lra.
Qed.

Lemma interpolates_segments xp (fp : list R) (i j : nat)
    a b ya yb a' b' ya' yb' x :
  Spec.ascending xp → (i < j)%nat →
  xp !! i = Some a → xp !! S i = Some b →
  fp !! i = Some ya → fp !! S i = Some yb →
  xp !! j = Some a' → xp !! S j = Some b' →
  fp !! j = Some ya' → fp !! S j = Some yb' →
  a <= x <= b → a' <= x <= b' → a < b → a' < b' →
  ya + (yb - ya) * ((x - a) / (b - a))
    = ya' + (yb' - ya') * ((x - a') / (b' - a')).
Proof.
  intros Hasc Hij Ha Hb Hya Hyb Ha' Hb' Hya' Hyb' Hx Hx' Hlt Hlt'.
  assert (Hle : (j <= S i)%nat)
    by (eapply (ascending_lookup_le xp); [done..|lra]).
  replace j with (S i) in * by lia.
  assert (a' = b) as -> by congruence. assert (ya' = yb) as -> by congruence.
  replace x with b by lra. field. lra.
Qed.

Lemma interpolates_unique xp fp x y y' :
  Spec.ascending xp → length fp = length xp →
  Spec.interpolates xp fp x y → Spec.interpolates xp fp x y' → y = y'.
Proof.
  intros Hasc Hlen H H'.
  destruct H as [(x0 & y0 & Hx0 & Hy0 & Hle & ->)|[(xn & yn & Hxn & Hyn & Hge & ->)|
          (i & a & b & ya & yb & Ha & Hb & Hya & Hyb & Hin & Hlt & Hy)]].
  - symmetry. by eapply interpolates_left.
  - symmetry. by eapply interpolates_right.
  - destruct H' as [(x0 & y0 & Hx0 & Hy0 & Hle & ->)|[(xn & yn & Hxn & Hyn & Hge & ->)|
          (j & a' & b' & ya' & yb' & Ha' & Hb' & Hya' & Hyb' & Hin' & Hlt' & ->)]].
    + eapply (interpolates_left xp fp); [done..|].
      right; right. by exists i, a, b, ya, yb.
    + eapply (interpolates_right xp fp); [done..|].
      right; right. by exists i, a, b, ya, yb.
    + subst y. destruct (lt_eq_lt_dec i j) as [[Hlt1| ->]|Hlt2].
      * by eapply (interpolates_segments xp fp i j).
      * congruence.
      * symmetry. by eapply (interpolates_segments xp fp j i).
Qed.

Lemma interpolates_Forall2_unique xp fp xs ys ys' :
  Spec.ascending xp → length fp = length xp →
  Forall2 (Spec.interpolates xp fp) xs ys →
  Forall2 (Spec.interpolates xp fp) xs ys' → ys' = ys.
Proof.
  intros Hasc Hlen H. revert ys'.
  induction H as [|x y xs ys Hxy _ IH]; intros ys' H'.
  - by apply Forall2_nil_inv_l in H'.
  - apply Forall2_cons_inv_l in H' as (y' & ys'' & Hxy' & H' & ->).
    f_equal; [by eapply interpolates_unique|by apply IH].
Qed.

(** The regular grid ascends. *)
Lemma ascending_map_seq (f : nat → R) start len :
  (∀ i j : nat, (i < j)%nat → f i < f j) →
  Spec.ascending (map f (seq start len)).
Proof.
  intros Hf. unfold Spec.ascending. revert start.
  induction len as [|len IH]; intros start; simpl; constructor.
  - apply IH.
  - apply Forall_forall. intros y Hy.
    apply list_elem_of_In, in_map_iff in Hy as (i & <- & Hi).
    apply in_seq in Hi. apply Hf. lia.
Qed.

Lemma regular_grid_ascending : Spec.ascending Spec.regular_grid.
Proof.
  apply ascending_map_seq. intros i j Hij.
  apply lt_INR in Hij. lra.
Qed.

End NpFacts.

(** ** The convolution *)

Section Convolution.
Local Open Scope R_scope.
Import Np.

Lemma total_app l1 l2 : Spec.total (l1 ++ l2) = Spec.total l1 + Spec.total l2.
Proof.
  unfold Spec.total. induction l1 as [|x l1 IH]; simpl; [ring|].
  rewrite IH. ring.
Qed.

Lemma total_zero {A} (f : A → R) (l : list A) :
  (∀ x, x ∈ l → f x = 0) → Spec.total (map f l) = 0.
Proof.
  unfold Spec.total. induction l as [|x l IH]; intros H; simpl; [done|].
  rewrite (H x) by apply list_elem_of_here.
  rewrite IH; [ring|]. intros y Hy. apply H. by apply list_elem_of_further.
Qed.

(** A sum in which one position at most contributes. *)
Lemma total_single (h : nat → R) (t m : nat) :
  Spec.total (map (λ j : nat, if (j =? t)%nat then h j else 0) (seq 0 m))
  = if (t <? m)%nat then h t else 0.
Proof.
  induction m as [|m IH].
  - reflexivity.
  - rewrite seq_S, map_app, total_app, IH. cbn [map Spec.total fold_right].
    rewrite Nat.add_0_l.
    destruct (Nat.eqb_spec m t) as [->|Hne].
    + rewrite Nat.ltb_irrefl.
      replace (t <? S t)%nat with true by (symmetry; apply Nat.ltb_lt; lia).
      ring.
    + destruct (Nat.ltb_spec t m) as [Hlt|Hge].
      * replace (t <? S m)%nat with true by (symmetry; apply Nat.ltb_lt; lia).
        ring.
      * replace (t <? S m)%nat with false by (symmetry; apply Nat.ltb_ge; lia).
        ring.
Qed.

(** Positions beyond the last one that contributes can be left out. *)
Lemma total_extend (g : nat → R) (m k : nat) :
  (∀ i, (m <= i)%nat → g i = 0) →
  Spec.total (map g (seq 0 (m + k))) = Spec.total (map g (seq 0 m)).
Proof.
  intros Hz. rewrite seq_app, map_app, total_app.
  rewrite (total_zero g (seq (0 + m) k)); [ring|].
  intros i Hi. apply Hz. apply elem_of_seq in Hi. lia.
Qed.

Lemma convolution_inner (a b : list R) (n i : nat) :
  Spec.total (map (λ j : nat,
                if (i + j =? n)%nat then nth i a 0 * nth j b 0 else 0)
              (seq 0 (length b)))
  = if (i <=? n)%nat then nth i a 0 * nth (n - i) b 0 else 0.
Proof.
  destruct (Nat.leb_spec i n) as [Hle|Hgt].
  - transitivity
      (Spec.total (map (λ j : nat, if (j =? n - i)%nat
                                   then nth i a 0 * nth j b 0 else 0)
                       (seq 0 (length b)))).
    { f_equal. apply map_ext. intros j.
      destruct (Nat.eqb_spec (i + j) n), (Nat.eqb_spec j (n - i));
        try reflexivity; lia. }
    rewrite (total_single (λ j, nth i a 0 * nth j b 0)).
    destruct (Nat.ltb_spec (n - i) (length b)) as [Hlt|Hge]; [done|].
    rewrite (nth_overflow b 0 Hge). ring.
  - apply total_zero. intros j _.
    destruct (Nat.eqb_spec (i + j) n); [lia|done].
Qed.

(** The sum over the pairs of positions is the sum the code takes over
    the positions of [a]. *)
Lemma convolution_entry_convolve_at (a b : list R) (n : nat) :
  Spec.convolution_entry a b n = convolve_at a b n.
Proof.
  unfold Spec.convolution_entry, convolve_at. fold (Spec.total).
  set (g := λ i : nat, if (i <=? n)%nat then nth i a 0 * nth (n - i) b 0 else 0).
  transitivity (Spec.total (map g (seq 0 (length a)))).
  { f_equal. apply map_ext. intros i. apply convolution_inner. }
  transitivity (Spec.total (map g (seq 0 (length a + S n)))).
  { symmetry. apply total_extend. intros i Hi. unfold g.
    rewrite (nth_overflow a 0 Hi). destruct (i <=? n)%nat; ring. }
  rewrite Nat.add_comm, total_extend.
  - unfold Spec.total. f_equal. apply map_ext_in. intros i Hi.
    apply in_seq in Hi. unfold g.
    destruct (Nat.leb_spec i n); [done|lia].
  - intros i Hi. unfold g. destruct (Nat.leb_spec i n); [lia|done].
Qed.

Lemma map_seq_from {A} (f : nat → A) (s n : nat) :
  map f (seq s n) = map (λ i : nat, f (i + s)%nat) (seq 0 n).
Proof.
  replace s with (s + 0)%nat at 1 by lia.
  rewrite <- (fmap_add_seq s 0 n).
  change (Nat.add s <$> seq 0 n) with (map (Nat.add s) (seq 0 n)).
  rewrite map_map. apply map_ext. intros i. f_equal. lia.
Qed.

(** The convolution of the code is the 'same' convolution. *)
Lemma fftconvolve_same_convolution (a b : list R) :
  b ≠ [] → fftconvolve_same a b = Spec.same_convolution a b.
Proof.
  intros Hb. unfold fftconvolve_same, Spec.same_convolution.
  assert (Hlb : (1 <= length b)%nat).
  { destruct b; [done|]. cbn [length]. lia. }
  cbv zeta. unfold Spec.linear_convolution at 1.
  rewrite length_map, length_seq.
  replace (length a + length b - 1 - length a)%nat with (length b - 1)%nat
    by lia.
  unfold Spec.linear_convolution.
  rewrite skipn_map, firstn_map.
  rewrite drop_seq, take_seq.
  assert (Hs : ((length b - 1) / 2 <= length b - 1)%nat).
  { apply Nat.Div0.div_le_upper_bound. lia. }
  rewrite Nat.min_l by lia.
  rewrite (map_seq_from _ (0 + (length b - 1) / 2)).
  apply map_ext. intros i. rewrite Nat.add_0_l.
  symmetry. apply convolution_entry_convolve_at.
Qed.

(** The middle three of the five entries [0; 1; 2.5; 4; 1.5]. *)
Example same_convolution_sample :
  Spec.same_convolution [1; 2; 3] [0; 1; 0.5] = [1; 2.5; 4].
Proof.
  unfold Spec.same_convolution, Spec.linear_convolution,
    Spec.convolution_entry, Spec.total. cbn.
  repeat (f_equal; try lra).
Qed.
End Convolution.

(** ** Running the heap operations *)

Section Run.
Local Open Scope R_scope.
Import Np Resource.

Lemma bind_run {A B} (m : M A) (f : A → M B) σ a σ' :
  m σ = (Ok a, σ') → (m ≫= f) σ = f a σ'.
Proof. intros H. unfold mbind, M_bind. by rewrite H. Qed.

Lemma bind_raise {A B} (m : M A) (f : A → M B) σ e σ' :
  m σ = (Raise e, σ') → (m ≫= f) σ = (Raise e, σ').
Proof. intros H. unfold mbind, M_bind. by rewrite H. Qed.

Lemma setdefault_run l k v d σ :
  heap σ !! l = Some d →
  dict_setdefault l k v σ =
    (Ok (default v (d !! k)),
     State (<[l := Spec.with_default k v d]> (heap σ)) (log σ)).
Proof.
  intros H. unfold dict_setdefault, Spec.with_default. rewrite H.
  destruct (d !! k) as [v'|]; simpl; [|done].
  rewrite insert_id by done. by destruct σ.
Qed.

Lemma copy_run l d σ :
  heap σ !! l = Some d →
  dict_copy l σ =
    (Ok (fresh (dom (heap σ))),
     State (<[fresh (dom (heap σ)) := d]> (heap σ)) (log σ)).
Proof. intros H. unfold dict_copy. by rewrite H. Qed.

Lemma getitem_run l k v d σ :
  heap σ !! l = Some d → d !! k = Some v → dict_getitem l k σ = (Ok v, σ).
Proof. intros H Hk. unfold dict_getitem, getitem. by rewrite H, Hk. Qed.

Lemma setitem_run l k v d σ :
  heap σ !! l = Some d →
  dict_setitem l k v σ =
    (Ok tt, State (<[l := <[k := v]> d]> (heap σ)) (log σ)).
Proof. intros H. unfold dict_setitem. by rewrite H. Qed.

Lemma fresh_heap_None (h : gmap positive (gmap string pyval)) :
  h !! fresh (dom h) = None.
Proof. apply not_elem_of_dom, is_fresh. Qed.

Lemma with_default_lookup k v d k' :
  Spec.with_default k v d !! k' =
    if decide (k = k') then Some (default v (d !! k)) else d !! k'.
Proof.
  unfold Spec.with_default. destruct (d !! k) as [v'|] eqn:Hk.
  - case_decide; by simplify_eq/=.
  - rewrite lookup_insert. by case_decide.
Qed.

Lemma with_default_keeps k v d k' v' :
  d !! k' = Some v' → Spec.with_default k v d !! k' = Some v'.
Proof.
  intros H. rewrite with_default_lookup. case_decide; [|done].
  subst. by rewrite H.
Qed.

Lemma with_defaults_keeps d k v :
  d !! k = Some v → Spec.with_defaults d !! k = Some v.
Proof.
  intros H. unfold Spec.with_defaults. by do 3 apply with_default_keeps.
Qed.

Lemma linspace_ne start stop n : linspace start stop (S n) ≠ [].
Proof.
  intros H. apply (f_equal length) in H.
  rewrite length_linspace in H. discriminate H.
Qed.

Lemma result_bind_ok {A B} (f : A → result B) (a : A) : (Ok a ≫= f) = f a.
Proof. reflexivity. Qed.

Lemma smooth_ok eta Delta_v sigma V POW :
  V ≠ [] → length POW = length V →
  smooth (VNum eta) (VNum Delta_v) (VNum sigma) (VArr V) (VArr POW) =
    Ok (linspace 0 35 72, smooth_power eta Delta_v sigma V POW).
Proof.
  intros Hne Hlen. unfold smooth, smooth_power.
  unfold as_arr, as_num. rewrite !result_bind_ok.
  rewrite interp_ok by assumption.
  rewrite !result_bind_ok.
  rewrite interp_ok.
  - rewrite !result_bind_ok. reflexivity.
  - apply linspace_ne.
  - rewrite length_map, length_fftconvolve_same, length_map.
    reflexivity.
Qed.

Lemma length_smooth_power eta Delta_v sigma V POW :
  length (smooth_power eta Delta_v sigma V POW) = 72%nat.
Proof.
  unfold smooth_power. rewrite !length_map, length_linspace. reflexivity.
Qed.

Lemma lift_run {A} (r : result A) σ : lift r σ = (r, σ).
Proof. reflexivity. Qed.

Lemma new_dict_run d σ :
  new_dict d σ =
    (Ok (fresh (dom (heap σ))),
     State (<[fresh (dom (heap σ)) := d]> (heap σ)) (log σ)).
Proof. reflexivity. Qed.

Lemma setdefaults_run {A} l d σ (k : pyval → pyval → pyval → M A) :
  heap σ !! l = Some d →
  (eta ← dict_setdefault l "eta" (VNum 0.95);
   Delta_v ← dict_setdefault l "Delta_v" (VNum 1.27);
   sigma ← dict_setdefault l "sigma" (VNum 2.29);
   k eta Delta_v sigma) σ =
  k (default (VNum 0.95) (d !! "eta"))
    (default (VNum 1.27) (d !! "Delta_v"))
    (default (VNum 2.29) (d !! "sigma"))
    (State (<[l := Spec.with_defaults d]> (heap σ)) (log σ)).
Proof.
  intros H.
  erewrite bind_run by (by apply setdefault_run).
  erewrite bind_run by (apply setdefault_run; simpl; apply lookup_insert_eq).
  erewrite bind_run by (apply setdefault_run; simpl; apply lookup_insert_eq).
  simpl. rewrite !insert_insert_eq. unfold Spec.with_defaults.
  rewrite !with_default_lookup. simpl. done.
Qed.


Lemma bind_unfold {A B} (m : M A) (f : A → M B) σ :
  (m ≫= f) σ =
    match m σ with
    | (Ok a, σ') => f a σ'
    | (Raise e, σ') => (Raise e, σ')
    end.
Proof. reflexivity. Qed.

Lemma getitem_run' l k d σ :
  heap σ !! l = Some d → dict_getitem l k σ = (getitem d k, σ).
Proof. intros H. unfold dict_getitem. by rewrite H. Qed.

Lemma windturbine_smooth_run σ turbine params dp d1 :
  let pl := Spec.params_loc σ params in
  let h1 := <[pl := Spec.with_defaults dp]> (heap σ) in
  let t' := fresh (dom h1) in
  Spec.params_object σ params = Some dp →
  h1 !! turbine = Some d1 →
  Spec.ends_with h1 (log σ) t' d1 (Spec.smooth_outcome dp d1)
    (windturbine_smooth turbine params σ).
Proof.
  intros pl h1 t' Hdp Ht.
  assert (Hbody : ∀ h lg, h !! turbine = Some d1 →
   Spec.ends_with h lg (fresh (dom h)) d1 (Spec.smooth_outcome dp d1)
   ((turbine ← dict_copy turbine;
     V ← dict_getitem turbine "V";
     POW ← dict_getitem turbine "POW";
     '(V, POW) ← lift (smooth (default (VNum 0.95) (dp !! "eta"))
                              (default (VNum 1.27) (dp !! "Delta_v"))
                              (default (VNum 2.29) (dp !! "sigma")) V POW);
     _ ← dict_setitem turbine "V" (VArr V);
     _ ← dict_setitem turbine "POW" (VArr POW);
     POW ← dict_getitem turbine "POW";
     P ← lift (np_max POW);
     _ ← dict_setitem turbine "P" (VNum P);
     POW ← dict_getitem turbine "POW";
     V ← dict_getitem turbine "V";
     POW ← lift (as_arr POW);
     V ← lift (as_arr V);
     _ ← (if oversmoothed V POW then logger_warn oversmoothing_msg
          else mret tt);
     mret turbine) (State h lg))).
  { clear. intros h lg Ht.
    erewrite bind_run by (by apply copy_run).
    cbn [heap log]. generalize (fresh (dom h)). intros t'.
    unfold Spec.smooth_outcome.
    assert (Hl : heap (State (<[t' := d1]> h) lg) !! t' = Some d1)
      by apply lookup_insert_eq.
    rewrite bind_unfold, (getitem_run' t' "V" d1 _ Hl).
    destruct (getitem d1 "V") as [vV|e]; cbn [mbind result_bind];
      [|by eexists].
    rewrite bind_unfold, (getitem_run' t' "POW" d1 _ Hl).
    destruct (getitem d1 "POW") as [vPOW|e]; cbn [mbind result_bind];
      [|by eexists].
    rewrite bind_unfold, lift_run.
    destruct (smooth _ _ _ vV vPOW) as [[V' POW']|e];
      cbn [mbind result_bind]; [|by eexists].
    erewrite bind_run by (apply setitem_run; apply lookup_insert_eq).
    erewrite bind_run by (apply setitem_run; apply lookup_insert_eq).
    erewrite bind_run by
      (eapply getitem_run; [apply lookup_insert_eq|apply lookup_insert_eq]).
    rewrite bind_unfold, lift_run. unfold np_max.
    destruct (amax POW') as [m|e]; cbn [mbind result_bind].
    2:{ cbn [heap log]. rewrite !insert_insert_eq. by eexists. }
    erewrite bind_run by (apply setitem_run; apply lookup_insert_eq).
    erewrite bind_run by
      (eapply getitem_run; [apply lookup_insert_eq|
        rewrite lookup_insert_ne by done; apply lookup_insert_eq]).
    erewrite bind_run by
      (eapply getitem_run; [apply lookup_insert_eq|
        do 2 (rewrite lookup_insert_ne by done); apply lookup_insert_eq]).
    erewrite bind_run by apply lift_run.
    erewrite bind_run by apply lift_run.
    cbn [heap log]. rewrite !insert_insert_eq.
    unfold mbind, M_bind, Spec.ends_with, Spec.smoothed_config.
    destruct (oversmoothed V' POW'); unfold logger_warn, mret, M_ret;
      cbn [heap log]; [done|by rewrite app_nil_r]. }
  unfold windturbine_smooth.
  unfold Spec.params_object, Spec.params_loc in *.
  destruct (default (PDict params_default) params) as [l|v].
  - erewrite bind_run by reflexivity.
    rewrite (setdefaults_run _ _ _ _ Hdp).
    by apply Hbody.
  - erewrite bind_run by apply new_dict_run.
    erewrite setdefaults_run by apply lookup_insert_eq.
    cbn [heap log]. rewrite insert_insert_eq.
    injection Hdp as <-. by apply Hbody.
Qed.

(** A call on an object that is not a dict fails at [turbine.copy()],
    after the parameter object has been filled in. *)
Lemma windturbine_smooth_not_dict σ turbine params dp :
  let pl := Spec.params_loc σ params in
  let h1 := <[pl := Spec.with_defaults dp]> (heap σ) in
  Spec.params_object σ params = Some dp →
  h1 !! turbine = None →
  windturbine_smooth turbine params σ =
    (Raise AttributeError, State h1 (log σ)).
Proof.
  intros pl h1 Hdp Ht.
  unfold windturbine_smooth.
  unfold Spec.params_object, Spec.params_loc in *.
  destruct (default (PDict params_default) params) as [l|v].
  - erewrite bind_run by reflexivity.
    rewrite (setdefaults_run _ _ _ _ Hdp).
    apply bind_raise. unfold dict_copy. cbn [heap]. fold pl h1. by rewrite Ht.
  - erewrite bind_run by apply new_dict_run.
    erewrite setdefaults_run by apply lookup_insert_eq.
    cbn [heap log]. rewrite insert_insert_eq.
    injection Hdp as <-.
    apply bind_raise. unfold dict_copy. cbn [heap]. fold pl h1. by rewrite Ht.
Qed.
Lemma fresh_ne (h : gmap positive (gmap string pyval)) l :
  is_Some (h !! l) → fresh (dom h) ≠ l.
Proof.
  intros [d Hd] Heq. pose proof (fresh_heap_None h) as Hf.
  rewrite Heq in Hf. congruence.
Qed.

Lemma with_defaults_other d k :
  k ≠ "eta" → k ≠ "Delta_v" → k ≠ "sigma" →
  Spec.with_defaults d !! k = d !! k.
Proof.
  intros H1 H2 H3. unfold Spec.with_defaults.
  rewrite !with_default_lookup.
  repeat case_decide; congruence.
Qed.

Lemma with_defaults_values d :
  Spec.with_defaults d !! "eta" = Some (default (VNum 0.95) (d !! "eta")) ∧
  Spec.with_defaults d !! "Delta_v"
    = Some (default (VNum 1.27) (d !! "Delta_v")) ∧
  Spec.with_defaults d !! "sigma" = Some (default (VNum 2.29) (d !! "sigma")).
Proof.
  unfold Spec.with_defaults. rewrite !with_default_lookup.
  repeat split; repeat case_decide; try congruence;
    by destruct (d !! _).
Qed.

(** The items of the turbine dict once the parameter object is filled
    in: they change only when the turbine dict is itself the parameter
    object, and then only by the defaults it lacked. *)
Lemma turbine_after_params σ turbine params d dp :
  heap σ !! turbine = Some d →
  Spec.params_object σ params = Some dp →
  ∃ d1, <[Spec.params_loc σ params := Spec.with_defaults dp]> (heap σ)
          !! turbine = Some d1 ∧
        (∀ k v, d !! k = Some v → d1 !! k = Some v) ∧
        (Spec.params_loc σ params ≠ turbine → d1 = d) ∧
        (∀ k, k ≠ "eta" → k ≠ "Delta_v" → k ≠ "sigma" → d1 !! k = d !! k).
Proof.
  intros Hd Hdp.
  destruct (decide (Spec.params_loc σ params = turbine)) as [Heq|Hne].
  - assert (dp = d) as ->.
    { unfold Spec.params_object, Spec.params_loc in *.
      destruct (default (PDict params_default) params) as [l|v].
      - congruence.
      - exfalso. by apply (fresh_ne (heap σ) turbine). }
    exists (Spec.with_defaults d). rewrite Heq, lookup_insert_eq.
    split; [done|]. split; [|split].
    + apply with_defaults_keeps.
    + done.
    + apply with_defaults_other.
  - exists d. rewrite lookup_insert_ne by done. eauto.
Qed.

Lemma smooth_outcome_ok dp d V POW eta Delta_v sigma :
  d !! "V" = Some (VArr V) → d !! "POW" = Some (VArr POW) →
  V ≠ [] → length POW = length V →
  default (VNum 0.95) (dp !! "eta") = VNum eta →
  default (VNum 1.27) (dp !! "Delta_v") = VNum Delta_v →
  default (VNum 2.29) (dp !! "sigma") = VNum sigma →
  ∃ m, Spec.maximum_of (smooth_power eta Delta_v sigma V POW) m ∧
       Spec.smooth_outcome dp d =
         Ok (linspace 0 35 72, smooth_power eta Delta_v sigma V POW, m).
Proof.
  intros HV HPOW Hne Hlen Heta Hdv Hsg.
  destruct (amax_maximum (smooth_power eta Delta_v sigma V POW))
    as (m & Hm & Hmax).
  { intros H. apply (f_equal length) in H.
    rewrite length_smooth_power in H. discriminate H. }
  exists m. split; [exact Hmax|].
  unfold Spec.smooth_outcome, getitem.
  rewrite HV, HPOW, Heta, Hdv, Hsg, !result_bind_ok.
  rewrite smooth_ok by assumption.
  rewrite result_bind_ok. cbn beta iota.
  rewrite Hm, result_bind_ok. reflexivity.
Qed.

(** A call on a well-formed power curve with float parameters returns:
    the result, the final heap and the log. *)
Lemma windturbine_smooth_ok σ turbine params d dp V POW eta Delta_v sigma :
  let h1 := <[Spec.params_loc σ params := Spec.with_defaults dp]> (heap σ) in
  let POW' := smooth_power eta Delta_v sigma V POW in
  heap σ !! turbine = Some d →
  d !! "V" = Some (VArr V) → d !! "POW" = Some (VArr POW) →
  V ≠ [] → length POW = length V →
  Spec.params_object σ params = Some dp →
  default (VNum 0.95) (dp !! "eta") = VNum eta →
  default (VNum 1.27) (dp !! "Delta_v") = VNum Delta_v →
  default (VNum 2.29) (dp !! "sigma") = VNum sigma →
  ∃ d1 m,
    h1 !! turbine = Some d1 ∧
    (∀ k v, d !! k = Some v → d1 !! k = Some v) ∧
    (Spec.params_loc σ params ≠ turbine → d1 = d) ∧
    (∀ k, k ≠ "eta" → k ≠ "Delta_v" → k ≠ "sigma" → d1 !! k = d !! k) ∧
    Spec.maximum_of POW' m ∧
    windturbine_smooth turbine params σ =
      (Ok (fresh (dom h1)),
       State (<[fresh (dom h1) :=
                  Spec.smoothed_config d1 (linspace 0 35 72) POW' m]> h1)
             (log σ ++ (if oversmoothed (linspace 0 35 72) POW'
                        then [oversmoothing_msg] else []))).
Proof.
  intros h1 POW' Hd HV HPOW Hne Hlen Hdp Heta Hdv Hsg.
  destruct (turbine_after_params σ turbine params d dp Hd Hdp)
    as (d1 & Hd1 & Hkeep & Hsame & Hother).
  destruct (smooth_outcome_ok dp d1 V POW eta Delta_v sigma)
    as (m & Hmax & Hout); auto.
  exists d1, m. repeat (split; [assumption|]).
  pose proof (windturbine_smooth_run σ turbine params dp d1 Hdp Hd1) as Hrun.
  rewrite Hout in Hrun. exact Hrun.
Qed.

Lemma kernel_gaussian Delta_v sigma v :
  kernel Delta_v sigma v = Spec.gaussian sigma Delta_v v.
Proof.
  unfold kernel, Spec.gaussian.
  replace (sigma ^ 2) with (sigma * sigma) by ring.
  replace (- (v - Delta_v) ^ 2) with (- (v - Delta_v) * (v - Delta_v)) by ring.
  replace (2 * PI * (sigma * sigma)) with (2 * PI * sigma * sigma) by ring.
  replace (2 * (sigma * sigma)) with (2 * sigma * sigma) by ring.
  reflexivity.
Qed.


Lemma regular_grid_ne : Spec.regular_grid ≠ [].
Proof. rewrite <- linspace_regular_grid. apply linspace_ne. Qed.

Lemma length_regular_grid : length Spec.regular_grid = 1001%nat.
Proof. rewrite <- linspace_regular_grid. apply length_linspace. Qed.

Lemma length_output_grid : length Spec.output_grid = 72%nat.
Proof. rewrite <- linspace_output_grid. apply length_linspace. Qed.

(** [smooth] computes the curve the specification describes. *)
Lemma smooth_power_spec eta Delta_v sigma V POW :
  V ≠ [] → length POW = length V →
  ∃ power_reg power_new,
    Forall2 (Spec.interpolates V POW) Spec.regular_grid power_reg ∧
    Forall2 (Spec.interpolates Spec.regular_grid
               (map (Rmult 0.1)
                  (fftconvolve_same power_reg
                     (map (Spec.gaussian sigma Delta_v) Spec.regular_grid))))
            Spec.output_grid power_new ∧
    smooth_power eta Delta_v sigma V POW = map (Rmult eta) power_new.
Proof.
  intros Hne Hlen. unfold smooth_power.
  rewrite linspace_regular_grid, linspace_output_grid.
  rewrite (map_ext _ _ (kernel_gaussian Delta_v sigma)).
  eexists _, _. split; [|split; [|reflexivity]].
  - by apply interp_Forall2.
  - apply interp_Forall2; [apply regular_grid_ne|].
    rewrite length_map, length_fftconvolve_same, length_map. reflexivity.
Qed.

Lemma existsb_all_false {A} (f : A → bool) (l : list A) :
  (∀ x, In x l → f x = false) → existsb f l = false.
Proof.
  induction l as [|a l IH]; intros H; simpl; [done|].
  rewrite (H a) by (by left). apply IH. intros x Hx. apply H. by right.
Qed.

(** On a grid that starts at 0 and ascends, the oversmoothing test looks
    at the first power value only. *)
Lemma oversmoothed_linspace stop n p0 POW :
  0 < stop →
  oversmoothed (linspace 0 stop (S (S n))) (p0 :: POW) = Rgtb p0 0.01.
Proof.
  intros Hstop. unfold oversmoothed, linspace.
  replace (S (S n) - 1)%nat with (S n) by lia.
  change (seq 0 (S (S n))) with (0%nat :: seq 1 (S n)).
  rewrite map_cons. cbn [combine existsb fst snd].
  assert (Hc : 0 < stop / INR (S n)).
  { apply Rdiv_lt_0_compat; [lra|]. apply lt_0_INR. lia. }
  replace (stop - 0) with stop by ring.
  rewrite existsb_all_false.
  - unfold Reqb. destruct (Req_dec_T _ _) as [_|Hn].
    + by rewrite orb_false_r.
    + exfalso. apply Hn. simpl. ring.
  - intros [v p] Hin. apply in_combine_l in Hin.
    apply in_map_iff in Hin as (i & <- & Hi). apply in_seq in Hi.
    cbn [fst snd]. unfold Reqb. destruct (Req_dec_T _ _) as [Heq|_]; [|done].
    exfalso. assert (0 < INR i) by (apply lt_0_INR; lia). nra.
Qed.

Lemma oversmoothed_at_zero POW :
  length POW = 72%nat →
  ∃ p0, head POW = Some p0 ∧
        oversmoothed (linspace 0 35 72) POW = Rgtb p0 0.01.
Proof.
  intros Hlen. destruct POW as [|p0 POW]; [discriminate Hlen|].
  exists p0. split; [reflexivity|].
  apply (oversmoothed_linspace 35 70 p0 POW). lra.
Qed.
(** A call whose parameter argument is a dict location without an object
    fails at the first [setdefault]. *)
Lemma windturbine_smooth_no_params σ turbine params :
  Spec.params_object σ params = None →
  windturbine_smooth turbine params σ = (Raise AttributeError, σ).
Proof.
  unfold Spec.params_object, windturbine_smooth. intros H.
  destruct (default (PDict params_default) params) as [l|v]; [|discriminate].
  erewrite bind_run by reflexivity.
  apply bind_raise. unfold dict_setdefault. by rewrite H.
Qed.

Lemma smooth_outcome_max dp d V' POW' m :
  Spec.smooth_outcome dp d = Ok (V', POW', m) → Spec.maximum_of POW' m.
Proof.
  unfold Spec.smooth_outcome. intros H.
  destruct (getitem d "V") as [vV|]; [|discriminate].
  rewrite result_bind_ok in H.
  destruct (getitem d "POW") as [vPOW|]; [|discriminate].
  rewrite result_bind_ok in H.
  destruct (smooth _ _ _ vV vPOW) as [[V0 POW0]|]; [|discriminate].
  rewrite result_bind_ok in H. cbn beta iota in H.
  destruct (amax POW0) as [m0|] eqn:Hm; [|discriminate].
  rewrite result_bind_ok in H. injection H as -> -> ->.
  destruct POW' as [|x POW']; [discriminate|].
  destruct (amax_maximum (x :: POW')) as (m' & Hm' & Hmax); [done|].
  congruence.
Qed.

(** What a returned config is made of. *)
Lemma windturbine_smooth_inv σ turbine params t' σ' d :
  windturbine_smooth turbine params σ = (Ok t', σ') →
  heap σ' !! t' = Some d →
  ∃ d1 V' POW' m,
    d = Spec.smoothed_config d1 V' POW' m ∧ Spec.maximum_of POW' m.
Proof.
  intros Hcall Hd.
  destruct (Spec.params_object σ params) as [dp|] eqn:Hdp.
  2:{ rewrite windturbine_smooth_no_params in Hcall by done. discriminate. }
  destruct (<[Spec.params_loc σ params := Spec.with_defaults dp]> (heap σ)
              !! turbine) as [d1|] eqn:Ht.
  2:{ rewrite (windturbine_smooth_not_dict _ _ _ dp) in Hcall by done.
      discriminate. }
  pose proof (windturbine_smooth_run σ turbine params dp d1 Hdp Ht) as Hrun.
  unfold Spec.ends_with in Hrun.
  destruct (Spec.smooth_outcome dp d1) as [[[V' POW'] m]|e] eqn:Hout.
  - rewrite Hcall in Hrun. injection Hrun as -> ->.
    cbn [heap] in Hd. rewrite lookup_insert_eq in Hd. injection Hd as <-.
    exists d1, V', POW', m. split; [done|]. by eapply smooth_outcome_max.
  - destruct Hrun as (d' & Hrun). rewrite Hcall in Hrun. discriminate.
Qed.

(** After any call the parameter object holds its items and the defaults
    it lacked. *)
Lemma params_after_call σ turbine params dp :
  Spec.params_object σ params = Some dp →
  heap (windturbine_smooth turbine params σ).2 !! Spec.params_loc σ params
    = Some (Spec.with_defaults dp).
Proof.
  intros Hdp.
  set (h1 := <[Spec.params_loc σ params := Spec.with_defaults dp]> (heap σ)).
  assert (Hpl : h1 !! Spec.params_loc σ params = Some (Spec.with_defaults dp))
    by apply lookup_insert_eq.
  destruct (h1 !! turbine) as [d1|] eqn:Ht.
  - pose proof (windturbine_smooth_run σ turbine params dp d1 Hdp Ht) as Hrun.
    fold h1 in Hrun. unfold Spec.ends_with in Hrun.
    assert (Hne : fresh (dom h1) ≠ Spec.params_loc σ params)
      by (apply fresh_ne; eauto).
    destruct (Spec.smooth_outcome dp d1) as [[[V' POW'] m]|e].
    + rewrite Hrun. cbn [snd heap]. by rewrite lookup_insert_ne.
    + destruct Hrun as (d' & ->). cbn [snd heap]. by rewrite lookup_insert_ne.
  - rewrite (windturbine_smooth_not_dict _ _ _ dp) by done.
    exact Hpl.
Qed.

(** After any call the turbine dict holds what it held, and the defaults
    it lacked when it is itself the parameter object. *)
Lemma turbine_after_call σ turbine params d dp :
  heap σ !! turbine = Some d →
  Spec.params_object σ params = Some dp →
  ∃ dt, heap (windturbine_smooth turbine params σ).2 !! turbine = Some dt ∧
        (∀ k v, d !! k = Some v → dt !! k = Some v) ∧
        (Spec.params_loc σ params ≠ turbine → dt = d) ∧
        (∀ k, k ≠ "eta" → k ≠ "Delta_v" → k ≠ "sigma" → dt !! k = d !! k).
Proof.
  intros Hd Hdp.
  destruct (turbine_after_params σ turbine params d dp Hd Hdp)
    as (d1 & Hd1 & Hkeep & Hsame & Hother).
  exists d1. split; [|done].
  pose proof (windturbine_smooth_run σ turbine params dp d1 Hdp Hd1) as Hrun.
  unfold Spec.ends_with in Hrun.
  assert (Hne : fresh (dom (<[Spec.params_loc σ params :=
                   Spec.with_defaults dp]> (heap σ))) ≠ turbine)
    by (apply fresh_ne; eauto).
  destruct (Spec.smooth_outcome dp d1) as [[[V' POW'] m]|e].
  - rewrite Hrun. cbn [snd heap]. by rewrite lookup_insert_ne.
  - destruct Hrun as (d' & ->). cbn [snd heap]. by rewrite lookup_insert_ne.
Qed.

Lemma smooth_outcome_ext dp dp' d d' :
  d !! "V" = d' !! "V" → d !! "POW" = d' !! "POW" →
  default (VNum 0.95) (dp !! "eta") = default (VNum 0.95) (dp' !! "eta") →
  default (VNum 1.27) (dp !! "Delta_v")
    = default (VNum 1.27) (dp' !! "Delta_v") →
  default (VNum 2.29) (dp !! "sigma") = default (VNum 2.29) (dp' !! "sigma") →
  Spec.smooth_outcome dp d = Spec.smooth_outcome dp' d'.
Proof.
  intros HV HPOW He Hdv Hsg. unfold Spec.smooth_outcome, getitem.
  by rewrite HV, HPOW, He, Hdv, Hsg.
Qed.

(** What a caller sees of a call is a function of [V], [POW] and the
    three parameter values. *)
Lemma observed_call σ turbine params d dp :
  heap σ !! turbine = Some d →
  Spec.params_object σ params = Some dp →
  Spec.observed (windturbine_smooth turbine params σ)
    = Spec.outcome_view (Spec.smooth_outcome dp d).
Proof.
  intros Hd Hdp.
  destruct (turbine_after_params σ turbine params d dp Hd Hdp)
    as (d1 & Hd1 & _ & _ & Hother).
  rewrite <- (smooth_outcome_ext dp dp d1 d) by (auto using Hother).
  pose proof (windturbine_smooth_run σ turbine params dp d1 Hdp Hd1) as Hrun.
  unfold Spec.ends_with in Hrun.
  destruct (Spec.smooth_outcome dp d1) as [[[V' POW'] m]|e].
  - rewrite Hrun. unfold Spec.observed, Spec.outcome_view.
    cbn [fst snd heap]. rewrite lookup_insert_eq. simpl.
    unfold Spec.smoothed_config. by simplify_map_eq.
  - destruct Hrun as (d' & ->). reflexivity.
Qed.

End Run.

(** ** Rated capacities *)

Section Capacity.
Local Open Scope R_scope.
Import Np Resource.

Lemma solarpanel_unknown_model files panel s :
  panel !! "model" = Some (VStr s) → s ≠ "huld" → s ≠ "bofinger" →
  solarpanel_rated_capacity_per_unit files (ByDict panel) = Ok VNone.
Proof.
  intros Hm H1 H2. unfold solarpanel_rated_capacity_per_unit.
  rewrite result_bind_ok, Hm. simpl.
  by rewrite !bool_decide_eq_false_2.
Qed.

(** C9.  For a panel config with model tag 'bofinger' and coefficients
    A, B, C, [solarpanel_rated_capacity_per_unit] returns
    (A + 1000*B + ln(1000)*C) * 1000; with A = 0, B = 0.0005, C = 0.0001
    this is 500 + 0.1*ln(1000). *)
Theorem bofinger_rated_capacity files panel A B C :
  panel !! "model" = Some (VStr "bofinger") →
  panel !! "A" = Some (VNum A) →
  panel !! "B" = Some (VNum B) →
  panel !! "C" = Some (VNum C) →
  solarpanel_rated_capacity_per_unit files (ByDict panel)
    = Ok (VNum ((A + 1000 * B + ln 1000 * C) * 1000)) ∧
  (A = 0 → B = 0.0005 → C = 0.0001 →
   solarpanel_rated_capacity_per_unit files (ByDict panel)
     = Ok (VNum (500 + 0.1 * ln 1000))).
Proof.
  intros Hm HA HB HC.
  assert (Hcall : solarpanel_rated_capacity_per_unit files (ByDict panel)
                  = Ok (VNum ((A + B * 1000 + C * ln 1000) * 1000))).
  { unfold solarpanel_rated_capacity_per_unit, getitem.
    rewrite result_bind_ok, Hm. simpl.
    rewrite HA, HB, HC. reflexivity. }
  rewrite Hcall. split.
  - do 2 f_equal. ring.
  - intros -> -> ->. do 2 f_equal. lra.
Qed.

Lemma bofinger_rated_capacity_witness :
  Example.panel_bofinger !! "model" = Some (VStr "bofinger") ∧
  solarpanel_rated_capacity_per_unit ∅ (ByDict Example.panel_bofinger)
    = Ok (VNum (500 + 0.1 * ln 1000)).
Proof.
  split; [reflexivity|].
  apply (bofinger_rated_capacity ∅ Example.panel_bofinger 0 0.0005 0.0001);
    reflexivity.
Defined.


(** A panel config without a model tag is a 'huld' panel. *)
Lemma solarpanel_untagged files panel :
  panel !! "model" = None →
  solarpanel_rated_capacity_per_unit files (ByDict panel)
    = getitem panel "efficiency".
Proof.
  intros Hm. unfold solarpanel_rated_capacity_per_unit.
  rewrite result_bind_ok, Hm. reflexivity.
Qed.

(** C2 fails on the code: a panel config without a model tag is given
    the default model 'huld' and its efficiency is returned. *)
Lemma untagged_panel_not_rejected :
  Example.panel_untagged !! "model" = None ∧
  solarpanel_rated_capacity_per_unit ∅ (ByDict Example.panel_untagged)
    = Ok (VNum 0.1) ∧
  ¬ raises "UnsupportedModelError"
      (solarpanel_rated_capacity_per_unit ∅ (ByDict Example.panel_untagged)).
Proof.
  assert (H : solarpanel_rated_capacity_per_unit ∅
                (ByDict Example.panel_untagged) = Ok (VNum 0.1)).
  { rewrite solarpanel_untagged by reflexivity. reflexivity. }
  split; [reflexivity|]. split; [exact H|].
  unfold raises. rewrite H. discriminate.
Qed.

(** C2, amended.  For a panel config whose model tag is missing, given
    as a dict or as the name of a yaml file,
    [solarpanel_rated_capacity_per_unit] takes the default model 'huld':
    it returns the item 'efficiency' of the config (a KeyError when the
    config has none) and does not raise UnsupportedModelError. *)
Theorem missing_model_defaults_to_huld files panel_arg panel :
  panel_arg = ByDict panel ∨
    (∃ name, panel_arg = ByName name ∧ files !! name = Some panel) →
  panel !! "model" = None →
  solarpanel_rated_capacity_per_unit files panel_arg
    = getitem panel "efficiency" ∧
  ¬ raises "UnsupportedModelError"
      (solarpanel_rated_capacity_per_unit files panel_arg).
Proof.
  intros Harg Hm.
  assert (H : solarpanel_rated_capacity_per_unit files panel_arg
              = getitem panel "efficiency").
  { destruct Harg as [->|(name & -> & Hfile)].
    - by apply solarpanel_untagged.
    - unfold solarpanel_rated_capacity_per_unit, get_solarpanelconfig.
      rewrite Hfile, result_bind_ok, Hm. reflexivity. }
  split; [exact H|]. rewrite H. unfold raises, getitem.
  destruct (panel !! "efficiency"); discriminate.
Qed.

Lemma missing_model_defaults_to_huld_witness :
  Example.panel_untagged !! "model" = None ∧
  solarpanel_rated_capacity_per_unit ∅ (ByDict Example.panel_untagged)
    = getitem Example.panel_untagged "efficiency" ∧
  ¬ raises "UnsupportedModelError"
      (solarpanel_rated_capacity_per_unit ∅ (ByDict Example.panel_untagged)).
Proof.
  split; [reflexivity|].
  apply (missing_model_defaults_to_huld ∅ _ Example.panel_untagged);
    [by left|reflexivity].
Defined.

(** [get_windturbineconfig] stores the maximum of the power sequence it
    loads. *)
Lemma get_windturbineconfig_max retrieve name d POW :
  get_windturbineconfig retrieve name = Ok d →
  d !! "POW" = Some (VArr POW) →
  ∃ m, d !! "P" = Some (VNum m) ∧ Spec.maximum_of POW m.
Proof.
  unfold get_windturbineconfig, getitem. intros Hd HPOW.
  destruct (retrieve name) as [[conf|]|e]; simpl in Hd; try discriminate.
  destruct (conf !! "V") as [v|]; simpl in Hd; [|discriminate].
  destruct (conf !! "POW") as [pw|]; simpl in Hd; [|discriminate].
  destruct (conf !! "HUB_HEIGHT") as [hub|]; simpl in Hd; [|discriminate].
  destruct (np_max pw) as [P|e] eqn:HP; simpl in Hd; [|discriminate].
  injection Hd as <-.
  rewrite lookup_insert_ne, lookup_insert_eq in HPOW by done.
  injection HPOW as ->. exists P. split.
  - by rewrite !lookup_insert_ne, lookup_insert_eq by done.
  - simpl in HP. destruct POW as [|x POW]; [discriminate|].
    destruct (amax_maximum (x :: POW)) as (m & Hm & Hmax); [done|].
    congruence.
Qed.

Lemma getitem_P d m :
  d !! "P" = Some (VNum m) → getitem d "P" = Ok (VNum m).
Proof. intros H. unfold getitem. by rewrite H. Qed.

(** C3.  For every valid turbine config, a name that
    [get_windturbineconfig] loads a config for or a dict made by
    [get_windturbineconfig] or [windturbine_smooth],
    [windturbine_rated_capacity_per_unit] returns the maximum of the
    power sequence of the config. *)
Theorem rated_capacity_is_max_power retrieve turbine d POW :
  Spec.valid_turbine retrieve turbine d →
  d !! "POW" = Some (VArr POW) →
  ∃ m, windturbine_rated_capacity_per_unit retrieve turbine = Ok (VNum m) ∧
       Spec.maximum_of POW m.
Proof.
  intros Hvalid HPOW. unfold windturbine_rated_capacity_per_unit.
  destruct Hvalid as [name d Hd|name d Hd|t params σ t' σ' d Hcall Hd].
  - destruct (get_windturbineconfig_max _ _ _ _ Hd HPOW) as (m & HP & Hmax).
    exists m. split; [|done]. rewrite Hd, result_bind_ok. by apply getitem_P.
  - destruct (get_windturbineconfig_max _ _ _ _ Hd HPOW) as (m & HP & Hmax).
    exists m. split; [|done]. rewrite result_bind_ok. by apply getitem_P.
  - destruct (windturbine_smooth_inv _ _ _ _ _ _ Hcall Hd)
      as (d1 & V' & POW' & m & -> & Hmax).
    unfold Spec.smoothed_config in *.
    rewrite lookup_insert_ne, lookup_insert_eq in HPOW by done.
    injection HPOW as <-.
    exists m. split; [|done]. rewrite result_bind_ok.
    apply getitem_P. apply lookup_insert_eq.
Qed.

Lemma example_loads :
  get_windturbineconfig Example.retrieve "example"
    = Ok (<["V" := VArr Example.V]> (<["POW" := VArr Example.POW]>
           (<["hub_height" := VNum 80]> (<["P" := VNum 800]> ∅)))).
Proof.
  assert (HP : np_max (VArr Example.POW) = Ok 800).
  { unfold np_max, amax, Example.POW. cbn [fold_left].
    rewrite (Rmax_right 0 0), (Rmax_right 0 100), (Rmax_right 100 400),
      (Rmax_right 400 800), (Rmax_right 800 800) by lra.
    reflexivity. }
  unfold get_windturbineconfig.
  replace (Example.retrieve "example") with (Ok (Some Example.turbineconf))
    by reflexivity.
  rewrite result_bind_ok.
  replace (getitem Example.turbineconf "V") with (Ok (VArr Example.V))
    by reflexivity.
  replace (getitem Example.turbineconf "POW") with (Ok (VArr Example.POW))
    by reflexivity.
  replace (getitem Example.turbineconf "HUB_HEIGHT") with (Ok (VNum 80))
    by reflexivity.
  rewrite !result_bind_ok, HP, result_bind_ok. reflexivity.
Qed.

Lemma rated_capacity_is_max_power_witness :
  ∃ m, windturbine_rated_capacity_per_unit Example.retrieve
         (ByName "example") = Ok (VNum m) ∧
       Spec.maximum_of Example.POW m.
Proof.
  eapply rated_capacity_is_max_power.
  - apply Spec.valid_name, example_loads.
  - reflexivity.
Defined.

(** Loading a raw configuration with an empty power sequence fails in
    [np.max]. *)
Lemma get_windturbineconfig_empty retrieve name conf v hub :
  retrieve name = Ok (Some conf) →
  conf !! "V" = Some v → conf !! "POW" = Some (VArr []) →
  conf !! "HUB_HEIGHT" = Some hub →
  get_windturbineconfig retrieve name = Raise ValueError.
Proof.
  intros Hr HV HPOW Hhub. unfold get_windturbineconfig, getitem.
  rewrite Hr, result_bind_ok, HV, result_bind_ok, HPOW, result_bind_ok.
  rewrite Hhub, result_bind_ok. reflexivity.
Qed.

(** Counterexample to C5: a config dict with an empty power sequence gets
    its stored [P] back, and a name whose raw configuration has an empty
    power sequence fails with ValueError. *)
Lemma empty_curve_not_rejected :
  Example.empty_curve !! "POW" = Some (VArr []) ∧
  windturbine_rated_capacity_per_unit Example.retrieve
    (ByDict Example.empty_curve) = Ok (VNum 0) ∧
  ¬ raises "EmptyCurveError"
      (windturbine_rated_capacity_per_unit Example.retrieve
         (ByDict Example.empty_curve)) ∧
  ¬ raises "EmptyCurveError"
      (windturbine_rated_capacity_per_unit Example.retrieve (ByName "empty")).
Proof.
  split; [reflexivity|]. split; [reflexivity|]. split.
  - unfold raises. discriminate.
  - unfold raises, windturbine_rated_capacity_per_unit.
    rewrite (get_windturbineconfig_empty _ _ Example.empty_turbineconf
               (VArr []) (VNum 80)); [discriminate|reflexivity..].
Qed.

(** C5, amended.  [windturbine_rated_capacity_per_unit] has no check for
    an empty power sequence and does not raise EmptyCurveError: for a
    config given as a dict it returns the stored item [P] (a KeyError
    when there is none) without looking at [POW]; for a name whose raw
    configuration has a power sequence of zero length, loading the
    config fails with the ValueError of [np.max]. *)
Theorem empty_curve_capacity retrieve turbine :
  (∀ d, turbine = ByDict d →
     windturbine_rated_capacity_per_unit retrieve turbine = getitem d "P" ∧
     ¬ raises "EmptyCurveError"
         (windturbine_rated_capacity_per_unit retrieve turbine)) ∧
  (∀ name conf v hub, turbine = ByName name →
     retrieve name = Ok (Some conf) →
     conf !! "V" = Some v → conf !! "POW" = Some (VArr []) →
     conf !! "HUB_HEIGHT" = Some hub →
     windturbine_rated_capacity_per_unit retrieve turbine
       = Raise ValueError).
Proof.
  split.
  - intros d ->. split; [reflexivity|].
    unfold raises, windturbine_rated_capacity_per_unit, getitem.
    rewrite result_bind_ok. destruct (d !! "P"); discriminate.
  - intros name conf v hub -> Hr HV HPOW Hhub.
    unfold windturbine_rated_capacity_per_unit.
    by erewrite get_windturbineconfig_empty.
Qed.

Lemma empty_curve_capacity_witness :
  windturbine_rated_capacity_per_unit Example.retrieve
    (ByDict Example.empty_curve) = getitem Example.empty_curve "P" ∧
  windturbine_rated_capacity_per_unit Example.retrieve (ByName "empty")
    = Raise ValueError.
Proof.
  split.
  - apply (empty_curve_capacity Example.retrieve (ByDict Example.empty_curve)).
    reflexivity.
  - apply (proj2 (empty_curve_capacity Example.retrieve (ByName "empty"))
             "empty" Example.empty_turbineconf (VArr []) (VNum 80));
      reflexivity.
Defined.

End Capacity.

(** ** Power-curve smoothing *)

Section Smoothing.
Local Open Scope R_scope.
Import Np Resource.

Lemma smoothed_config_lookup d V' POW' m :
  Spec.smoothed_config d V' POW' m !! "V" = Some (VArr V') ∧
  Spec.smoothed_config d V' POW' m !! "POW" = Some (VArr POW') ∧
  Spec.smoothed_config d V' POW' m !! "P" = Some (VNum m) ∧
  ∀ k, k ≠ "V" → k ≠ "POW" → k ≠ "P" →
       Spec.smoothed_config d V' POW' m !! k = d !! k.
Proof.
  unfold Spec.smoothed_config. repeat split; try by simplify_map_eq.
  intros k ? ? ?. by simplify_map_eq.
Qed.

(** C1.  For a turbine config with non-empty, strictly ascending [V] and
    [POW] of the same length, and parameters [eta], [delta_v] and
    [sigma > 0], [windturbine_smooth] returns a config whose [V] is the
    72-point grid on [0, 35], whose [POW] is [eta] times the linear
    interpolation onto that grid of 0.1 times the length-preserving
    ('same') linear convolution of the curve resampled on the 1001-point
    grid on [-50, 50] (linear interpolation, flat beyond the endpoints)
    with the Gaussian kernel on that grid, and whose [P] is the maximum of
    the new [POW].  The convolution is the middle part, of the length of
    the resampled curve, of the sums of products over the pairs of
    positions with a given sum; each of the two resamplings is the only
    sequence of values of its curve at the grid points. *)
Theorem windturbine_smooth_computes σ turbine params V POW eta delta_v sigma :
  Spec.power_curve σ turbine V POW →
  Spec.ascending V →
  Spec.called_with σ params eta delta_v sigma →
  0 < sigma →
  ∃ t' σ' d' power_reg power_new P,
    windturbine_smooth turbine params σ = (Ok t', σ') ∧
    heap σ' !! t' = Some d' ∧
    Spec.resamples V POW Spec.regular_grid power_reg ∧
    Spec.resamples Spec.regular_grid
      (map (Rmult 0.1)
         (Spec.same_convolution power_reg
            (map (Spec.gaussian sigma delta_v) Spec.regular_grid)))
      Spec.output_grid power_new ∧
    d' !! "V" = Some (VArr Spec.output_grid) ∧
    d' !! "POW" = Some (VArr (map (Rmult eta) power_new)) ∧
    d' !! "P" = Some (VNum P) ∧
    Spec.maximum_of (map (Rmult eta) power_new) P.
Proof.
  intros (d & Hd & HV & HPOW & Hne & Hlen) Hasc
    (dp & Hdp & He & Hdv & Hsg) _.
  destruct (windturbine_smooth_ok σ turbine params d dp V POW eta delta_v sigma
              Hd HV HPOW Hne Hlen Hdp He Hdv Hsg)
    as (d1 & m & _ & _ & _ & _ & Hmax & Hcall).
  destruct (smooth_power_spec eta delta_v sigma V POW Hne Hlen)
    as (power_reg & power_new & Hreg & Hnew & Heq).
  rewrite Heq in Hmax, Hcall. rewrite linspace_output_grid in Hcall.
  assert (Hconv : fftconvolve_same power_reg
                    (map (Spec.gaussian sigma delta_v) Spec.regular_grid)
                  = Spec.same_convolution power_reg
                      (map (Spec.gaussian sigma delta_v) Spec.regular_grid)).
  { apply fftconvolve_same_convolution. intros Hnil.
    apply map_eq_nil in Hnil. by apply regular_grid_ne. }
  assert (Hlc : length Spec.regular_grid
                = length (map (Rmult 0.1)
                            (Spec.same_convolution power_reg
                               (map (Spec.gaussian sigma delta_v)
                                    Spec.regular_grid)))).
  { rewrite <- Hconv, length_map, length_fftconvolve_same.
    by eapply Forall2_length. }
  rewrite Hconv in Hnew.
  destruct (smoothed_config_lookup d1 Spec.output_grid
              (map (Rmult eta) power_new) m) as (H1 & H2 & H3 & _).
  eexists _, _, _, power_reg, power_new, m.
  split; [exact Hcall|]. split; [apply lookup_insert_eq|].
  split.
  { split; [exact Hreg|]. intros ys' Hys'.
    by eapply interpolates_Forall2_unique. }
  split.
  { split; [exact Hnew|]. intros ys' Hys'.
    eapply interpolates_Forall2_unique; [| |exact Hnew|exact Hys'].
    - apply regular_grid_ascending.
    - symmetry. exact Hlc. }
  repeat (split; [assumption|]). assumption.
Qed.

Lemma example_power_curve :
  Spec.power_curve Example.state0 2%positive Example.V Example.POW.
Proof.
  exists Example.turbine. repeat split; try reflexivity. discriminate.
Qed.

Lemma example_ascending : Spec.ascending Example.V.
Proof.
  unfold Spec.ascending, Example.V.
  repeat (constructor; [|repeat constructor; lra]). constructor.
Qed.

Lemma example_called_with params :
  params = None ∨ params = Some (PDict 3%positive) →
  Spec.called_with Example.state0 params 0.95 1.27 2.29.
Proof.
  intros [-> | ->]; exists ∅; repeat split; reflexivity.
Qed.

Lemma windturbine_smooth_computes_witness :
  ∃ t' σ' d' power_reg power_new P,
    windturbine_smooth 2%positive None Example.state0 = (Ok t', σ') ∧
    heap σ' !! t' = Some d' ∧
    Spec.resamples Example.V Example.POW Spec.regular_grid power_reg ∧
    Spec.resamples Spec.regular_grid
      (map (Rmult 0.1)
         (Spec.same_convolution power_reg
            (map (Spec.gaussian 2.29 1.27) Spec.regular_grid)))
      Spec.output_grid power_new ∧
    d' !! "V" = Some (VArr Spec.output_grid) ∧
    d' !! "POW" = Some (VArr (map (Rmult 0.95) power_new)) ∧
    d' !! "P" = Some (VNum P) ∧
    Spec.maximum_of (map (Rmult 0.95) power_new) P.
Proof.
  apply (windturbine_smooth_computes Example.state0 2%positive None
           Example.V Example.POW 0.95 1.27 2.29).
  - apply example_power_curve.
  - apply example_ascending.
  - apply example_called_with. by left.
  - lra.
Defined.

Lemma head_linspace start stop n : head (linspace start stop (S n)) = Some start.
Proof.
  unfold linspace. change (seq 0 (S n)) with (0%nat :: seq 1 n).
  rewrite map_cons. cbn [head]. f_equal. simpl INR. ring.
Qed.

(** C7.  On a turbine config with non-empty, ascending [V] and [POW] of
    the same length and float parameters, [windturbine_smooth] returns a
    config and raises nothing.  The returned curve starts at velocity 0;
    when its power there exceeds 1e-2 the call logs the oversmoothing
    warning and still returns the config, and otherwise it logs
    nothing. *)
Theorem windturbine_smooth_total σ turbine params V POW eta delta_v sigma :
  Spec.power_curve σ turbine V POW →
  Spec.ascending V →
  Spec.called_with σ params eta delta_v sigma →
  ∃ t' σ' d' V' POW' p0,
    windturbine_smooth turbine params σ = (Ok t', σ') ∧
    heap σ' !! t' = Some d' ∧
    d' !! "V" = Some (VArr V') ∧ d' !! "POW" = Some (VArr POW') ∧
    head V' = Some 0 ∧ head POW' = Some p0 ∧
    (p0 > 0.01 → log σ' = (log σ ++ [oversmoothing_msg])%list) ∧
    (¬ p0 > 0.01 → log σ' = log σ).
Proof.
  intros (d & Hd & HV & HPOW & Hne & Hlen) _ (dp & Hdp & He & Hdv & Hsg).
  destruct (windturbine_smooth_ok σ turbine params d dp V POW eta delta_v sigma
              Hd HV HPOW Hne Hlen Hdp He Hdv Hsg)
    as (d1 & m & _ & _ & _ & _ & _ & Hcall).
  destruct (smoothed_config_lookup d1 (linspace 0 35 72)
              (smooth_power eta delta_v sigma V POW) m) as (H1 & H2 & _ & _).
  destruct (oversmoothed_at_zero (smooth_power eta delta_v sigma V POW)
              (length_smooth_power _ _ _ _ _)) as (p0 & Hp0 & Hover).
  rewrite Hover in Hcall.
  eexists _, _, _, _, _, p0.
  split; [exact Hcall|]. split; [apply lookup_insert_eq|].
  split; [exact H1|]. split; [exact H2|].
  split; [apply head_linspace|]. split; [exact Hp0|].
  cbn [log]. unfold Rgtb. destruct (Rgt_dec p0 0.01) as [Hgt|Hle].
  - split; [done|]. intros Hn. by destruct Hn.
  - split; [intros Hgt; by destruct Hle|]. intros _. apply app_nil_r.
Qed.

Lemma windturbine_smooth_total_witness :
  ∃ t' σ' d' V' POW' p0,
    windturbine_smooth 2%positive None Example.state0 = (Ok t', σ') ∧
    heap σ' !! t' = Some d' ∧
    d' !! "V" = Some (VArr V') ∧ d' !! "POW" = Some (VArr POW') ∧
    head V' = Some 0 ∧ head POW' = Some p0 ∧
    (p0 > 0.01 → log σ' = (log Example.state0 ++ [oversmoothing_msg])%list) ∧
    (¬ p0 > 0.01 → log σ' = log Example.state0).
Proof.
  apply (windturbine_smooth_total Example.state0 2%positive None
           Example.V Example.POW 0.95 1.27 2.29).
  - apply example_power_curve.
  - apply example_ascending.
  - apply example_called_with. by left.
Defined.

(** C8.  [windturbine_smooth] returns a new config object and does not
    change the items of its input: the returned location held no object
    before the call, every item of the input config is as it was (and
    the input object has no other item, unless it was itself passed as
    [params]), the returned config has the [hub_height] of the input,
    and its items other than [V], [POW] and [P] are those of the
    input. *)
Theorem windturbine_smooth_returns_new_config
    σ turbine params d V POW eta delta_v sigma :
  heap σ !! turbine = Some d →
  Spec.power_curve σ turbine V POW →
  Spec.called_with σ params eta delta_v sigma →
  ∃ t' σ' d' dt,
    windturbine_smooth turbine params σ = (Ok t', σ') ∧
    heap σ !! t' = None ∧ t' ≠ turbine ∧
    heap σ' !! t' = Some d' ∧
    heap σ' !! turbine = Some dt ∧
    (∀ k v, d !! k = Some v → dt !! k = Some v) ∧
    (Spec.params_loc σ params ≠ turbine → dt = d) ∧
    d' !! "hub_height" = d !! "hub_height" ∧
    (∀ k, k ≠ "V" → k ≠ "POW" → k ≠ "P" → d' !! k = dt !! k).
Proof.
  intros Hd (d0 & Hd0 & HV & HPOW & Hne & Hlen) (dp & Hdp & He & Hdv & Hsg).
  assert (d0 = d) as -> by congruence.
  destruct (windturbine_smooth_ok σ turbine params d dp V POW eta delta_v sigma
              Hd HV HPOW Hne Hlen Hdp He Hdv Hsg)
    as (d1 & m & Hd1 & Hkeep & Hsame & Hother & _ & Hcall).
  destruct (smoothed_config_lookup d1 (linspace 0 35 72)
              (smooth_power eta delta_v sigma V POW) m) as (_ & _ & _ & Hrest).
  set (h1 := <[Spec.params_loc σ params := Spec.with_defaults dp]> (heap σ))
    in *.
  assert (Hfresh : h1 !! fresh (dom h1) = None) by apply fresh_heap_None.
  assert (Hnt : fresh (dom h1) ≠ turbine) by (apply fresh_ne; eauto).
  eexists _, _, _, d1.
  split; [exact Hcall|]. cbn [heap].
  split.
  { unfold h1 in Hfresh. rewrite lookup_insert in Hfresh.
    by case_decide. }
  split; [exact Hnt|].
  split; [apply lookup_insert_eq|].
  split; [by rewrite lookup_insert_ne|].
  split; [exact Hkeep|]. split; [exact Hsame|].
  split; [|exact Hrest].
  rewrite Hrest by done. by apply Hother.
Qed.

Lemma windturbine_smooth_returns_new_config_witness :
  ∃ t' σ' d' dt,
    windturbine_smooth 2%positive None Example.state0 = (Ok t', σ') ∧
    heap Example.state0 !! t' = None ∧ t' ≠ 2%positive ∧
    heap σ' !! t' = Some d' ∧
    heap σ' !! 2%positive = Some dt ∧
    (∀ k v, Example.turbine !! k = Some v → dt !! k = Some v) ∧
    (Spec.params_loc Example.state0 None ≠ 2%positive →
     dt = Example.turbine) ∧
    d' !! "hub_height" = Example.turbine !! "hub_height" ∧
    (∀ k, k ≠ "V" → k ≠ "POW" → k ≠ "P" → d' !! k = dt !! k).
Proof.
  apply (windturbine_smooth_returns_new_config Example.state0 2%positive None
           Example.turbine Example.V Example.POW 0.95 1.27 2.29).
  - reflexivity.
  - apply example_power_curve.
  - apply example_called_with. by left.
Defined.

Lemma with_defaults_empty_ne : Spec.with_defaults ∅ ≠ ∅.
Proof.
  intros H. apply (f_equal (λ d : gmap string pyval, d !! "eta")) in H.
  destruct (with_defaults_values ∅) as (He & _). rewrite He in H.
  discriminate H.
Qed.

(** Counterexample to C4: a call writes the three defaults into the empty
    dict the caller passes as [params], and a call without [params]
    writes them into the shared default dict, which the next call then
    reads. *)
Lemma params_argument_is_mutated :
  heap (windturbine_smooth 2%positive (Some (PDict 3%positive))
          Example.state0).2 !! 3%positive
    ≠ heap Example.state0 !! 3%positive ∧
  heap (windturbine_smooth 2%positive None Example.state0).2 !! params_default
    ≠ heap Example.state0 !! params_default ∧
  Spec.params_object
    (windturbine_smooth 2%positive None Example.state0).2 None
    = Some (Spec.with_defaults ∅).
Proof.
  pose proof (params_after_call Example.state0 2%positive
                (Some (PDict 3%positive)) ∅ eq_refl) as H3.
  pose proof (params_after_call Example.state0 2%positive None ∅ eq_refl)
    as H1.
  change (Spec.params_loc Example.state0 (Some (PDict 3%positive)))
    with 3%positive in H3.
  change (Spec.params_loc Example.state0 None) with params_default in H1.
  split; [|split].
  - rewrite H3. change (heap Example.state0 !! 3%positive) with
      (Some (∅ : gmap string pyval)).
    intros H. injection H as H. by apply with_defaults_empty_ne.
  - rewrite H1. change (heap Example.state0 !! params_default) with
      (Some (∅ : gmap string pyval)).
    intros H. injection H as H. by apply with_defaults_empty_ne.
  - exact H1.
Qed.

(** C4, amended.  [windturbine_smooth] writes to the dict it reads its
    parameters from: after a call that dict holds the items it had,
    unchanged, and the defaults eta = 0.95, Delta_v = 1.27,
    sigma = 2.29 for those of the three keys it lacked.  When [params] is
    omitted that dict is the one default object made when the module is
    loaded, shared by all such calls; the values a later call reads from
    the dict are the values this call used. *)
Theorem windturbine_smooth_fills_params σ turbine params dp :
  Spec.params_object σ params = Some dp →
  let σ' := (windturbine_smooth turbine params σ).2 in
  heap σ' !! Spec.params_loc σ params = Some (Spec.with_defaults dp) ∧
  (∀ k v, dp !! k = Some v → Spec.with_defaults dp !! k = Some v) ∧
  (∀ k, k ≠ "eta" → k ≠ "Delta_v" → k ≠ "sigma" →
        Spec.with_defaults dp !! k = dp !! k) ∧
  Spec.with_defaults dp !! "eta"
    = Some (default (VNum 0.95) (dp !! "eta")) ∧
  Spec.with_defaults dp !! "Delta_v"
    = Some (default (VNum 1.27) (dp !! "Delta_v")) ∧
  Spec.with_defaults dp !! "sigma"
    = Some (default (VNum 2.29) (dp !! "sigma")) ∧
  ((∀ v, params ≠ Some (PValue v)) →
   Spec.params_object σ' params = Some (Spec.with_defaults dp)).
Proof.
  intros Hdp σ'.
  pose proof (params_after_call σ turbine params dp Hdp) as Hafter.
  split; [exact Hafter|].
  split; [apply with_defaults_keeps|].
  split; [apply with_defaults_other|].
  destruct (with_defaults_values dp) as (H1 & H2 & H3).
  repeat (split; [assumption|]).
  intros Hdict. destruct params as [[l|v]|].
  - exact Hafter.
  - by destruct (Hdict v).
  - exact Hafter.
Qed.

Lemma windturbine_smooth_fills_params_witness :
  let σ' := (windturbine_smooth 2%positive None Example.state0).2 in
  heap σ' !! Spec.params_loc Example.state0 None
    = Some (Spec.with_defaults ∅) ∧
  (∀ k v, (∅ : gmap string pyval) !! k = Some v →
          Spec.with_defaults ∅ !! k = Some v) ∧
  (∀ k, k ≠ "eta" → k ≠ "Delta_v" → k ≠ "sigma" →
        Spec.with_defaults ∅ !! k = (∅ : gmap string pyval) !! k) ∧
  Spec.with_defaults ∅ !! "eta"
    = Some (default (VNum 0.95) ((∅ : gmap string pyval) !! "eta")) ∧
  Spec.with_defaults ∅ !! "Delta_v"
    = Some (default (VNum 1.27) ((∅ : gmap string pyval) !! "Delta_v")) ∧
  Spec.with_defaults ∅ !! "sigma"
    = Some (default (VNum 2.29) ((∅ : gmap string pyval) !! "sigma")) ∧
  ((∀ v, None ≠ Some (PValue v)) →
   Spec.params_object σ' None = Some (Spec.with_defaults ∅)).
Proof.
  apply (windturbine_smooth_fills_params Example.state0 2%positive None ∅).
  reflexivity.
Defined.

Lemma params_object_after_call σ turbine params dp :
  Spec.params_object σ params = Some dp →
  ∃ dp', Spec.params_object (windturbine_smooth turbine params σ).2 params
           = Some dp' ∧
         default (VNum 0.95) (dp' !! "eta")
           = default (VNum 0.95) (dp !! "eta") ∧
         default (VNum 1.27) (dp' !! "Delta_v")
           = default (VNum 1.27) (dp !! "Delta_v") ∧
         default (VNum 2.29) (dp' !! "sigma")
           = default (VNum 2.29) (dp !! "sigma").
Proof.
  intros Hdp.
  pose proof (params_after_call σ turbine params dp Hdp) as Hafter.
  destruct (with_defaults_values dp) as (H1 & H2 & H3).
  assert (Hfilled :
    default (VNum 0.95) (Spec.with_defaults dp !! "eta")
      = default (VNum 0.95) (dp !! "eta") ∧
    default (VNum 1.27) (Spec.with_defaults dp !! "Delta_v")
      = default (VNum 1.27) (dp !! "Delta_v") ∧
    default (VNum 2.29) (Spec.with_defaults dp !! "sigma")
      = default (VNum 2.29) (dp !! "sigma"))
    by (by rewrite H1, H2, H3).
  destruct params as [[l|v]|].
  - exists (Spec.with_defaults dp). by split.
  - exists dp. by split.
  - exists (Spec.with_defaults dp). by split.
Qed.

(** C10.  What a call returns is determined by the [V] and [POW] of the
    turbine config and the three parameter values it is called with:
    two calls that agree on these, in any two states, on any two
    objects, raise the same exception or return configs with the same
    [V], [POW] and [P]; and a call repeated with the same arguments, on
    the caller's [params] dict or on the shared default, gives again
    what it gave the first time. *)
Theorem windturbine_smooth_deterministic
    σ1 σ2 t1 t2 p1 p2 d1 d2 dp1 dp2 :
  heap σ1 !! t1 = Some d1 → heap σ2 !! t2 = Some d2 →
  d1 !! "V" = d2 !! "V" → d1 !! "POW" = d2 !! "POW" →
  Spec.params_object σ1 p1 = Some dp1 →
  Spec.params_object σ2 p2 = Some dp2 →
  default (VNum 0.95) (dp1 !! "eta") = default (VNum 0.95) (dp2 !! "eta") →
  default (VNum 1.27) (dp1 !! "Delta_v")
    = default (VNum 1.27) (dp2 !! "Delta_v") →
  default (VNum 2.29) (dp1 !! "sigma")
    = default (VNum 2.29) (dp2 !! "sigma") →
  Spec.observed (windturbine_smooth t1 p1 σ1)
    = Spec.observed (windturbine_smooth t2 p2 σ2) ∧
  Spec.observed
    (windturbine_smooth t1 p1 (windturbine_smooth t1 p1 σ1).2)
    = Spec.observed (windturbine_smooth t1 p1 σ1).
Proof.
  intros Hd1 Hd2 HV HPOW Hp1 Hp2 He Hdv Hsg. split.
  - rewrite (observed_call σ1 t1 p1 d1 dp1), (observed_call σ2 t2 p2 d2 dp2)
      by assumption.
    f_equal. by apply smooth_outcome_ext.
  - destruct (turbine_after_call σ1 t1 p1 d1 dp1 Hd1 Hp1)
      as (dt & Hdt & _ & _ & Hother).
    destruct (params_object_after_call σ1 t1 p1 dp1 Hp1)
      as (dp' & Hdp' & He' & Hdv' & Hsg').
    rewrite (observed_call _ t1 p1 dt dp' Hdt Hdp').
    rewrite (observed_call σ1 t1 p1 d1 dp1) by assumption.
    f_equal. apply smooth_outcome_ext; try assumption; by apply Hother.
Qed.

Lemma windturbine_smooth_deterministic_witness :
  Spec.observed (windturbine_smooth 2%positive None Example.state0)
    = Spec.observed
        (windturbine_smooth 2%positive (Some (PDict 3%positive))
           Example.state0) ∧
  Spec.observed
    (windturbine_smooth 2%positive None
       (windturbine_smooth 2%positive None Example.state0).2)
    = Spec.observed (windturbine_smooth 2%positive None Example.state0).
Proof.
  apply (windturbine_smooth_deterministic Example.state0 Example.state0
           2%positive 2%positive None (Some (PDict 3%positive))
           Example.turbine Example.turbine ∅ ∅); reflexivity.
Defined.

End Smoothing.

(** ** More on power-curve smoothing *)

Section MoreSmoothing.
Local Open Scope R_scope.
Import Np Resource.

Lemma interp_raises x xp fp :
  xp = [] ∨ length fp ≠ length xp → interp x xp fp = Raise ValueError.
Proof.
  intros H. unfold interp.
  destruct (bool_decide (xp = [])) eqn:Hxp; [done|].
  apply bool_decide_eq_false_1 in Hxp. destruct H as [H|H]; [done|].
  by rewrite bool_decide_eq_true_2.
Qed.

(** X1.  A call that raises has logged nothing, and every dict object that
    existed before the call, other than the parameter object, is as it
    was. *)
Theorem raising_call_keeps_state σ turbine params e :
  (windturbine_smooth turbine params σ).1 = Raise e →
  log (windturbine_smooth turbine params σ).2 = log σ ∧
  ∀ l d, heap σ !! l = Some d → l ≠ Spec.params_loc σ params →
         heap (windturbine_smooth turbine params σ).2 !! l = Some d.
Proof.
  intros Hraise.
  destruct (Spec.params_object σ params) as [dp|] eqn:Hdp.
  2:{ rewrite windturbine_smooth_no_params by done. split; [done|]. auto. }
  set (h1 := <[Spec.params_loc σ params := Spec.with_defaults dp]> (heap σ)).
  destruct (h1 !! turbine) as [d1|] eqn:Ht.
  2:{ rewrite (windturbine_smooth_not_dict _ _ _ dp) by done.
      split; [done|]. intros l d Hl Hne. cbn [snd heap].
      by rewrite lookup_insert_ne. }
  pose proof (windturbine_smooth_run σ turbine params dp d1 Hdp Ht) as Hrun.
  fold h1 in Hrun. unfold Spec.ends_with in Hrun.
  destruct (Spec.smooth_outcome dp d1) as [[[V' POW'] m]|e'].
  - rewrite Hrun in Hraise. discriminate Hraise.
  - destruct Hrun as (d' & Hrun). rewrite Hrun. cbn [snd heap log].
    split; [done|]. intros l d Hl Hne.
    assert (Hl1 : h1 !! l = Some d) by (unfold h1; by rewrite lookup_insert_ne).
    rewrite lookup_insert_ne; [done|]. apply fresh_ne. eauto.
Qed.

Lemma raising_call_keeps_state_witness :
  log (windturbine_smooth 4%positive None Sample.state1).2
    = log Sample.state1 ∧
  ∀ l d, heap Sample.state1 !! l = Some d →
         l ≠ Spec.params_loc Sample.state1 None →
         heap (windturbine_smooth 4%positive None Sample.state1).2 !! l
           = Some d.
Proof.
  apply (raising_call_keeps_state Sample.state1 4%positive None ValueError).
  vm_compute. reflexivity.
Defined.

Lemma call_raises σ turbine params d dp e :
  heap σ !! turbine = Some d →
  Spec.params_object σ params = Some dp →
  Spec.smooth_outcome dp d = Raise e →
  (windturbine_smooth turbine params σ).1 = Raise e.
Proof.
  intros Hd Hdp Hout.
  pose proof (observed_call σ turbine params d dp Hd Hdp) as Hobs.
  rewrite Hout in Hobs. unfold Spec.observed, Spec.outcome_view in Hobs.
  destruct (windturbine_smooth turbine params σ).1; [discriminate|].
  congruence.
Qed.

(** X2.  A config that lacks [V] or [POW] makes the call raise KeyError, and
    one whose [V] is empty or whose [POW] has another length than [V]
    makes it raise the ValueError of [np.interp], whatever the
    parameters are. *)
Theorem malformed_curve_raises σ turbine params d dp :
  heap σ !! turbine = Some d →
  Spec.params_object σ params = Some dp →
  (d !! "V" = None ∨ (is_Some (d !! "V") ∧ d !! "POW" = None) →
   (windturbine_smooth turbine params σ).1 = Raise KeyError) ∧
  (∀ V POW, d !! "V" = Some (VArr V) → d !! "POW" = Some (VArr POW) →
            V = [] ∨ length POW ≠ length V →
            (windturbine_smooth turbine params σ).1 = Raise ValueError).
Proof.
  intros Hd Hdp. split.
  - intros Hmiss. apply (call_raises σ turbine params d dp); [done..|].
    unfold Spec.smooth_outcome, getitem.
    destruct Hmiss as [->|[[v ->] ->]]; reflexivity.
  - intros V POW HV HPOW Hbad.
    apply (call_raises σ turbine params d dp); [done..|].
    unfold Spec.smooth_outcome, getitem. rewrite HV, HPOW, !result_bind_ok.
    unfold smooth, as_arr. rewrite !result_bind_ok.
    rewrite interp_raises by done. reflexivity.
Qed.

Lemma malformed_curve_raises_witness :
  (windturbine_smooth 4%positive None Sample.state1).1 = Raise ValueError ∧
  (windturbine_smooth 3%positive None Sample.state1).1 = Raise KeyError.
Proof.
  split.
  - apply (malformed_curve_raises Sample.state1 4%positive None
             Sample.short_turbine ∅ eq_refl eq_refl) with
      (V := [0; 5; 10]) (POW := [0; 100]); [reflexivity..|].
    right. simpl. lia.
  - apply (malformed_curve_raises Sample.state1 3%positive None ∅ ∅
             eq_refl eq_refl).
    by left.
Defined.

Lemma last_linspace start stop n :
  last (linspace start stop (S (S n))) = Some stop.
Proof.
  unfold linspace. rewrite (seq_S (S n) 0), map_app. cbn [map].
  rewrite last_snoc. f_equal.
  replace (S (S n) - 1)%nat with (S n) by lia. cbn [Nat.add].
  field. apply not_0_INR. lia.
Qed.

Lemma output_grid_ascending : Spec.ascending Spec.output_grid.
Proof.
  apply ascending_map_seq. intros i j Hij.
  apply lt_INR in Hij. lra.
Qed.

(** X3.  The config a call returns is again a well-formed power curve: 72
    strictly ascending velocities from 0 to 35 and as many power values.
    So the call can be repeated on its own result, and returns again. *)
Theorem smoothed_config_is_power_curve σ turbine params V POW eta delta_v sigma :
  Spec.power_curve σ turbine V POW →
  Spec.called_with σ params eta delta_v sigma →
  ∃ t' σ' V' POW',
    windturbine_smooth turbine params σ = (Ok t', σ') ∧
    Spec.power_curve σ' t' V' POW' ∧ Spec.ascending V' ∧
    length V' = 72%nat ∧ head V' = Some 0 ∧ last V' = Some 35 ∧
    ∃ t'' σ'', windturbine_smooth t' params σ' = (Ok t'', σ'').
Proof.
  intros (d & Hd & HV & HPOW & Hne & Hlen) (dp & Hdp & He & Hdv & Hsg).
  destruct (windturbine_smooth_ok σ turbine params d dp V POW eta delta_v sigma
              Hd HV HPOW Hne Hlen Hdp He Hdv Hsg)
    as (d1 & m & _ & _ & _ & _ & _ & Hcall).
  destruct (smoothed_config_lookup d1 (linspace 0 35 72)
              (smooth_power eta delta_v sigma V POW) m) as (H1 & H2 & _ & _).
  set (POW' := smooth_power eta delta_v sigma V POW) in *.
  set (V' := linspace 0 35 72) in *.
  assert (HV'ne : V' ≠ []) by apply linspace_ne.
  assert (Hlen' : length POW' = length V').
  { unfold POW', V'. by rewrite length_smooth_power, length_linspace. }
  match type of Hcall with
  | _ = (Ok ?t, ?s) => set (t' := t) in *; set (σ' := s) in *
  end.
  exists t', σ', V', POW'. split; [exact Hcall|].
  assert (Hd' : heap σ' !! t' = Some (Spec.smoothed_config d1 V' POW' m))
    by apply lookup_insert_eq.
  split; [eexists; split; [exact Hd'|by repeat split]|].
  split; [unfold V'; rewrite linspace_output_grid; apply output_grid_ascending|].
  split; [apply length_linspace|].
  split; [apply head_linspace|].
  split; [apply last_linspace|].
  destruct (params_object_after_call σ turbine params dp Hdp)
    as (dp' & Hdp' & He' & Hdv' & Hsg').
  rewrite Hcall in Hdp'. cbn [snd] in Hdp'.
  rewrite <- He' in He. rewrite <- Hdv' in Hdv. rewrite <- Hsg' in Hsg.
  destruct (windturbine_smooth_ok σ' t' params _ dp' V' POW' eta delta_v sigma
              Hd' H1 H2 HV'ne Hlen' Hdp' He Hdv Hsg)
    as (d2 & m2 & _ & _ & _ & _ & _ & Hcall2).
  eexists _, _. exact Hcall2.
Qed.

Lemma smoothed_config_is_power_curve_witness :
  ∃ t' σ' V' POW',
    windturbine_smooth 2%positive None Example.state0 = (Ok t', σ') ∧
    Spec.power_curve σ' t' V' POW' ∧ Spec.ascending V' ∧
    length V' = 72%nat ∧ head V' = Some 0 ∧ last V' = Some 35 ∧
    ∃ t'' σ'', windturbine_smooth t' None σ' = (Ok t'', σ'').
Proof.
  apply (smoothed_config_is_power_curve Example.state0 2%positive None
           Example.V Example.POW 0.95 1.27 2.29).
  - apply example_power_curve.
  - apply example_called_with. by left.
Defined.

Lemma with_defaults_idemp d :
  Spec.with_defaults (Spec.with_defaults d) = Spec.with_defaults d.
Proof.
  destruct (with_defaults_values d) as (H1 & H2 & H3).
  unfold Spec.with_defaults at 1. unfold Spec.with_default.
  rewrite H1. rewrite H2. by rewrite H3.
Qed.

(** X4.  Filling in the defaults is done once: a later call with the same
    [params] dict, or again without [params], on any turbine, leaves that
    dict exactly as the first call left it. *)
Theorem params_filled_once σ turbine turbine2 params dp :
  Spec.params_object σ params = Some dp →
  (∀ v, params ≠ Some (PValue v)) →
  let σ' := (windturbine_smooth turbine params σ).2 in
  let σ'' := (windturbine_smooth turbine2 params σ').2 in
  heap σ'' !! Spec.params_loc σ params
    = heap σ' !! Spec.params_loc σ params ∧
  heap σ' !! Spec.params_loc σ params = Some (Spec.with_defaults dp).
Proof.
  intros Hdp Hdict σ' σ''.
  pose proof (params_after_call σ turbine params dp Hdp) as H1.
  fold σ' in H1. split; [|exact H1].
  assert (Hloc : Spec.params_loc σ' params = Spec.params_loc σ params).
  { destruct params as [[l|v]|]; [done| |done]. by destruct (Hdict v). }
  assert (Hobj : Spec.params_object σ' params = Some (Spec.with_defaults dp)).
  { destruct params as [[l|v]|]; [exact H1| |exact H1]. by destruct (Hdict v). }
  pose proof (params_after_call σ' turbine2 params _ Hobj) as H2.
  fold σ'' in H2. rewrite Hloc in H2.
  by rewrite H1, H2, with_defaults_idemp.
Qed.

Lemma params_filled_once_witness :
  let σ' := (windturbine_smooth 2%positive None Example.state0).2 in
  let σ'' := (windturbine_smooth 3%positive None σ').2 in
  heap σ'' !! Spec.params_loc Example.state0 None
    = heap σ' !! Spec.params_loc Example.state0 None ∧
  heap σ' !! Spec.params_loc Example.state0 None
    = Some (Spec.with_defaults ∅).
Proof.
  apply (params_filled_once Example.state0 2%positive 3%positive None ∅).
  - reflexivity.
  - intros v. discriminate.
Defined.

Lemma combine_scale c (xp fp : list R) :
  combine xp (map (Rmult c) fp)
    = map (λ p : R * R, (p.1, c * p.2)) (combine xp fp).
Proof.
  revert fp. induction xp as [|x xp IH]; intros [|y fp]; simpl; try done.
  by rewrite IH.
Qed.

Lemma interp_from_scale c x pts : ∀ x0 y0,
  interp_from x x0 (c * y0) (map (λ p : R * R, (p.1, c * p.2)) pts)
    = c * interp_from x x0 y0 pts.
Proof.
  induction pts as [|[x1 y1] pts IH]; intros x0 y0; simpl; [done|].
  destruct (Rlt_dec x x1); [|apply IH]. unfold Rdiv. ring.
Qed.

Lemma interp1_scale c xp fp x :
  interp1 xp (map (Rmult c) fp) x = c * interp1 xp fp x.
Proof.
  unfold interp1. rewrite combine_scale.
  destruct (combine xp fp) as [|[x0 y0] pts]; simpl; [ring|].
  destruct (Rlt_dec x x0); [done|]. apply interp_from_scale.
Qed.

Lemma sum_scale {A} c (g : A → R) (l : list A) :
  fold_right Rplus 0 (map (λ k, c * g k) l)
    = c * fold_right Rplus 0 (map g l).
Proof. induction l as [|a l IH]; simpl; [ring|]. rewrite IH. ring. Qed.

Lemma convolve_at_scale c a b n :
  convolve_at (map (Rmult c) a) b n = c * convolve_at a b n.
Proof.
  unfold convolve_at. rewrite <- sum_scale. f_equal. apply map_ext.
  intros k. replace 0 with (c * 0) at 1 by ring.
  rewrite (map_nth (Rmult c)). ring.
Qed.

Lemma fftconvolve_same_scale c a b :
  fftconvolve_same (map (Rmult c) a) b = map (Rmult c) (fftconvolve_same a b).
Proof.
  unfold fftconvolve_same. rewrite length_map, map_map. apply map_ext.
  intros i. apply convolve_at_scale.
Qed.

Lemma map_Rmult_comm c e (l : list R) :
  map (Rmult e) (map (Rmult c) l) = map (Rmult c) (map (Rmult e) l).
Proof. rewrite !map_map. apply map_ext. intros x. ring. Qed.

(** [smooth] is linear in the power curve, and [eta] scales its result. *)
Lemma smooth_power_scale c eta Delta_v sigma V POW :
  smooth_power eta Delta_v sigma V (map (Rmult c) POW)
    = map (Rmult c) (smooth_power eta Delta_v sigma V POW).
Proof.
  unfold smooth_power.
  generalize (linspace (-50) 50 1001) as reg, (linspace 0 35 72) as out.
  intros reg out.
  rewrite (map_ext _ _ (interp1_scale c V POW)).
  rewrite <- (map_map (interp1 V POW) (Rmult c)).
  rewrite fftconvolve_same_scale, map_Rmult_comm.
  rewrite (map_ext _ _ (interp1_scale c reg _)).
  rewrite <- (map_map (interp1 reg _) (Rmult c)).
  apply map_Rmult_comm.
Qed.

Lemma smooth_power_eta eta Delta_v sigma V POW :
  smooth_power eta Delta_v sigma V POW
    = map (Rmult eta) (smooth_power 1 Delta_v sigma V POW).
Proof.
  unfold smooth_power.
  generalize (linspace (-50) 50 1001) as reg, (linspace 0 35 72) as out.
  intros reg out. f_equal. rewrite map_map. apply map_ext. intros x. ring.
Qed.

Lemma maximum_of_scale c a m :
  0 <= c → Spec.maximum_of a m → Spec.maximum_of (map (Rmult c) a) (c * m).
Proof.
  intros Hc [Hin Hmax]. split.
  - apply list_elem_of_In, in_map, list_elem_of_In, Hin.
  - intros y Hy. apply list_elem_of_In, in_map_iff in Hy as (x & <- & Hx).
    apply Rmult_le_compat_l; [done|]. apply Hmax. by apply list_elem_of_In.
Qed.

Lemma maximum_of_unique a m m' :
  Spec.maximum_of a m → Spec.maximum_of a m' → m = m'.
Proof.
  intros [Hin Hmax] [Hin' Hmax']. apply Rle_antisym; auto.
Qed.

Lemma observed_ok σ turbine params V POW eta Delta_v sigma :
  Spec.power_curve σ turbine V POW →
  Spec.called_with σ params eta Delta_v sigma →
  ∃ m, Spec.maximum_of (smooth_power eta Delta_v sigma V POW) m ∧
       Spec.observed (windturbine_smooth turbine params σ)
         = Ok (Some (VArr (linspace 0 35 72)),
               Some (VArr (smooth_power eta Delta_v sigma V POW)),
               Some (VNum m)).
Proof.
  intros (d & Hd & HV & HPOW & Hne & Hlen) (dp & Hdp & He & Hdv & Hsg).
  destruct (smooth_outcome_ok dp d V POW eta Delta_v sigma
              HV HPOW Hne Hlen He Hdv Hsg) as (m & Hmax & Hout).
  exists m. split; [exact Hmax|].
  rewrite (observed_call σ turbine params d dp Hd Hdp), Hout. reflexivity.
Qed.

(** X5.  Scaling the power sequence of the input by a factor [c >= 0] (a
    change of unit, say) scales the power sequence and the rated power of
    the returned config by [c], and leaves its velocities as they are. *)
Theorem scaled_power_scales_result
    σ1 σ2 t1 t2 p1 p2 V POW c eta delta_v sigma :
  0 <= c →
  Spec.power_curve σ1 t1 V POW →
  Spec.power_curve σ2 t2 V (map (Rmult c) POW) →
  Spec.called_with σ1 p1 eta delta_v sigma →
  Spec.called_with σ2 p2 eta delta_v sigma →
  ∃ V' POW' P,
    Spec.observed (windturbine_smooth t1 p1 σ1)
      = Ok (Some (VArr V'), Some (VArr POW'), Some (VNum P)) ∧
    Spec.observed (windturbine_smooth t2 p2 σ2)
      = Ok (Some (VArr V'), Some (VArr (map (Rmult c) POW')),
            Some (VNum (c * P))).
Proof.
  intros Hc Hpc1 Hpc2 Hcw1 Hcw2.
  destruct (observed_ok _ _ _ _ _ _ _ _ Hpc1 Hcw1) as (m1 & Hm1 & Hobs1).
  destruct (observed_ok _ _ _ _ _ _ _ _ Hpc2 Hcw2) as (m2 & Hm2 & Hobs2).
  rewrite smooth_power_scale in Hm2, Hobs2.
  rewrite (maximum_of_unique _ _ _ Hm2 (maximum_of_scale c _ _ Hc Hm1))
    in Hobs2.
  eexists _, _, _. split; [exact Hobs1|exact Hobs2].
Qed.

Lemma sample_power_curve_W :
  Spec.power_curve Sample.state1 6%positive Example.V
    (map (Rmult 1000) Example.POW).
Proof.
  exists Sample.turbine_in_W. repeat split; try reflexivity. discriminate.
Qed.

Lemma sample_power_curve_kW :
  Spec.power_curve Sample.state1 2%positive Example.V Example.POW.
Proof.
  exists Example.turbine. repeat split; try reflexivity. discriminate.
Qed.

Lemma sample_called_with_default :
  Spec.called_with Sample.state1 None 0.95 1.27 2.29.
Proof. exists ∅. repeat split; reflexivity. Qed.

Lemma scaled_power_scales_result_witness :
  ∃ V' POW' P,
    Spec.observed (windturbine_smooth 2%positive None Sample.state1)
      = Ok (Some (VArr V'), Some (VArr POW'), Some (VNum P)) ∧
    Spec.observed (windturbine_smooth 6%positive None Sample.state1)
      = Ok (Some (VArr V'), Some (VArr (map (Rmult 1000) POW')),
            Some (VNum (1000 * P))).
Proof.
  apply (scaled_power_scales_result Sample.state1 Sample.state1
           2%positive 6%positive None None Example.V Example.POW
           1000 0.95 1.27 2.29).
  - lra.
  - apply sample_power_curve_kW.
  - apply sample_power_curve_W.
  - apply sample_called_with_default.
  - apply sample_called_with_default.
Defined.

(** X6.  The availability factor [eta >= 0] only scales the result: the power
    sequence and the rated power of the returned config are [eta] times
    those of the call with [eta = 1] and the same curve, [Delta_v] and
    [sigma]. *)
Theorem eta_scales_result σ1 σ2 t1 t2 p1 p2 V POW eta delta_v sigma :
  0 <= eta →
  Spec.power_curve σ1 t1 V POW →
  Spec.power_curve σ2 t2 V POW →
  Spec.called_with σ1 p1 1 delta_v sigma →
  Spec.called_with σ2 p2 eta delta_v sigma →
  ∃ V' POW' P,
    Spec.observed (windturbine_smooth t1 p1 σ1)
      = Ok (Some (VArr V'), Some (VArr POW'), Some (VNum P)) ∧
    Spec.observed (windturbine_smooth t2 p2 σ2)
      = Ok (Some (VArr V'), Some (VArr (map (Rmult eta) POW')),
            Some (VNum (eta * P))).
Proof.
  intros Hc Hpc1 Hpc2 Hcw1 Hcw2.
  destruct (observed_ok _ _ _ _ _ _ _ _ Hpc1 Hcw1) as (m1 & Hm1 & Hobs1).
  destruct (observed_ok _ _ _ _ _ _ _ _ Hpc2 Hcw2) as (m2 & Hm2 & Hobs2).
  rewrite smooth_power_eta in Hm2, Hobs2.
  rewrite (maximum_of_unique _ _ _ Hm2 (maximum_of_scale eta _ _ Hc Hm1))
    in Hobs2.
  eexists _, _, _. split; [exact Hobs1|exact Hobs2].
Qed.

Lemma eta_scales_result_witness :
  ∃ V' POW' P,
    Spec.observed
      (windturbine_smooth 2%positive (Some (PDict 7%positive)) Sample.state1)
      = Ok (Some (VArr V'), Some (VArr POW'), Some (VNum P)) ∧
    Spec.observed (windturbine_smooth 2%positive None Sample.state1)
      = Ok (Some (VArr V'), Some (VArr (map (Rmult 0.95) POW')),
            Some (VNum (0.95 * P))).
Proof.
  apply (eta_scales_result Sample.state1 Sample.state1
           2%positive 2%positive (Some (PDict 7%positive)) None
           Example.V Example.POW 0.95 1.27 2.29).
  - lra.
  - apply sample_power_curve_kW.
  - apply sample_power_curve_kW.
  - exists Sample.params_eta_1. repeat split; reflexivity.
  - apply sample_called_with_default.
Defined.

Lemma zeros_scaled (l : list R) :
  Forall (λ p, p = 0) l → l = map (Rmult 0) l.
Proof.
  induction 1 as [|x l Hx _ IH]; simpl; [done|].
  rewrite <- IH, Hx. f_equal. ring.
Qed.

(** X7.  A turbine that produces nothing stays at nothing.  For
    parameters of a size that keeps the kernel of lines 152-155 finite in
    double precision ([sigma] between 1e-100 and 1e100, [Delta_v] at most
    1e100 in absolute value): when every value of the input power sequence
    is 0, every value of the returned power sequence is 0, the rated power
    is 0, and no warning is logged. *)
Theorem idle_turbine_stays_idle σ turbine params V POW eta delta_v sigma :
  Spec.power_curve σ turbine V POW →
  Spec.called_with σ params eta delta_v sigma →
  1e-100 <= sigma <= 1e100 →
  -1e100 <= delta_v <= 1e100 →
  Forall (λ p, p = 0) POW →
  ∃ t' σ' d' POW',
    windturbine_smooth turbine params σ = (Ok t', σ') ∧
    heap σ' !! t' = Some d' ∧
    d' !! "POW" = Some (VArr POW') ∧ Forall (λ p, p = 0) POW' ∧
    d' !! "P" = Some (VNum 0) ∧
    log σ' = log σ.
Proof.
  intros (d & Hd & HV & HPOW & Hne & Hlen) (dp & Hdp & He & Hdv & Hsg)
    _ _ Hzero.
  destruct (windturbine_smooth_ok σ turbine params d dp V POW eta delta_v sigma
              Hd HV HPOW Hne Hlen Hdp He Hdv Hsg)
    as (d1 & m & _ & _ & _ & _ & Hmax & Hcall).
  assert (Hz : Forall (λ p, p = 0) (smooth_power eta delta_v sigma V POW)).
  { rewrite (zeros_scaled POW Hzero), smooth_power_scale.
    apply Forall_map, Forall_forall. intros x _. simpl. ring. }
  assert (Hm : m = 0).
  { destruct Hmax as [Hin _]. rewrite Forall_forall in Hz. by apply Hz. }
  destruct (oversmoothed_at_zero (smooth_power eta delta_v sigma V POW)
              (length_smooth_power _ _ _ _ _)) as (p0 & Hp0 & Hover).
  assert (Hp : p0 = 0).
  { rewrite Forall_forall in Hz. apply Hz.
    destruct (smooth_power eta delta_v sigma V POW); simplify_eq/=.
    apply list_elem_of_here. }
  rewrite Hover, Hp, Hm in Hcall.
  assert (Hno : Rgtb 0 0.01 = false).
  { unfold Rgtb. destruct (Rgt_dec 0 0.01); [lra|done]. }
  rewrite Hno, app_nil_r in Hcall.
  destruct (smoothed_config_lookup d1 (linspace 0 35 72)
              (smooth_power eta delta_v sigma V POW) 0) as (_ & H2 & H3 & _).
  eexists _, _, _, _. split; [exact Hcall|].
  split; [apply lookup_insert_eq|].
  split; [exact H2|]. split; [exact Hz|]. split; [exact H3|]. reflexivity.
Qed.

Lemma idle_turbine_stays_idle_witness :
  ∃ t' σ' d' POW',
    windturbine_smooth 5%positive None Sample.state1 = (Ok t', σ') ∧
    heap σ' !! t' = Some d' ∧
    d' !! "POW" = Some (VArr POW') ∧ Forall (λ p, p = 0) POW' ∧
    d' !! "P" = Some (VNum 0) ∧
    log σ' = log Sample.state1.
Proof.
  apply (idle_turbine_stays_idle Sample.state1 5%positive None
           [0; 25] [0; 0] 0.95 1.27 2.29).
  - exists Sample.idle_turbine. repeat split; try reflexivity. discriminate.
  - apply sample_called_with_default.
  - lra.
  - lra.
  - repeat constructor.
Defined.



End MoreSmoothing.

(** ** More on rated capacities *)

Section MoreCapacity.
Local Open Scope R_scope.
Import Np Resource.

Lemma eq_str_false v s : v ≠ VStr s → eq_str v s = false.
Proof.
  intros H. destruct v as [r|a|s'| ]; try reflexivity.
  simpl. apply bool_decide_eq_false_2. congruence.
Qed.

(** X9.  A model tag that is neither 'huld' nor 'bofinger', be it another
    string or not a string at all, is not rejected: the function returns
    None, whatever other items the config has. *)
Theorem unknown_model_returns_none files panel v :
  panel !! "model" = Some v →
  v ≠ VStr "huld" → v ≠ VStr "bofinger" →
  solarpanel_rated_capacity_per_unit files (ByDict panel) = Ok VNone.
Proof.
  intros Hm H1 H2. unfold solarpanel_rated_capacity_per_unit.
  rewrite result_bind_ok, Hm.
  change (default (VStr "huld") (Some v)) with v.
  by rewrite !eq_str_false.
Qed.

Lemma unknown_model_returns_none_witness :
  solarpanel_rated_capacity_per_unit ∅ (ByDict Example.panel_unknown)
    = Ok VNone.
Proof.
  apply (unknown_model_returns_none ∅ Example.panel_unknown (VStr "unknown"));
    [reflexivity|discriminate..].
Defined.

(** X10.  An item the model needs and the config lacks is a KeyError: the
    efficiency of a 'huld' or untagged panel, and each of the
    coefficients A, B and C of a 'bofinger' panel. *)
Theorem missing_panel_item_raises files panel :
  (default (VStr "huld") (panel !! "model") = VStr "huld" →
   panel !! "efficiency" = None →
   solarpanel_rated_capacity_per_unit files (ByDict panel) = Raise KeyError) ∧
  (panel !! "model" = Some (VStr "bofinger") →
   panel !! "A" = None ∨ panel !! "B" = None ∨ panel !! "C" = None →
   solarpanel_rated_capacity_per_unit files (ByDict panel) = Raise KeyError).
Proof.
  unfold solarpanel_rated_capacity_per_unit, getitem. split.
  - intros Hm He. rewrite result_bind_ok, Hm, He. reflexivity.
  - intros Hm Hmiss. rewrite result_bind_ok, Hm. simpl.
    destruct (panel !! "A"); [|reflexivity]. simpl.
    destruct (panel !! "B"); [|reflexivity]. simpl.
    destruct (panel !! "C"); [|reflexivity].
    destruct Hmiss as [H|[H|H]]; discriminate H.
Qed.

Lemma missing_panel_item_raises_witness :
  solarpanel_rated_capacity_per_unit ∅ (ByDict Sample.panel_no_C)
    = Raise KeyError.
Proof.
  apply (missing_panel_item_raises ∅ Sample.panel_no_C);
    [reflexivity|]. right; right. reflexivity.
Defined.

Lemma ln_1000_pos : 0 < ln 1000.
Proof. rewrite <- ln_1. apply ln_increasing; lra. Qed.

(** X11.  The bofinger capacity grows with each coefficient: a panel whose A,
    B and C are not smaller has a rated capacity that is not smaller. *)
Theorem bofinger_capacity_monotone files panel panel' A B C A' B' C' :
  panel !! "model" = Some (VStr "bofinger") →
  panel' !! "model" = Some (VStr "bofinger") →
  panel !! "A" = Some (VNum A) → panel !! "B" = Some (VNum B) →
  panel !! "C" = Some (VNum C) →
  panel' !! "A" = Some (VNum A') → panel' !! "B" = Some (VNum B') →
  panel' !! "C" = Some (VNum C') →
  A <= A' → B <= B' → C <= C' →
  ∃ r r',
    solarpanel_rated_capacity_per_unit files (ByDict panel) = Ok (VNum r) ∧
    solarpanel_rated_capacity_per_unit files (ByDict panel') = Ok (VNum r') ∧
    r <= r'.
Proof.
  intros Hm Hm' HA HB HC HA' HB' HC' HleA HleB HleC.
  exists ((A + B * 1000 + C * ln 1000) * 1000),
         ((A' + B' * 1000 + C' * ln 1000) * 1000).
  unfold solarpanel_rated_capacity_per_unit, getitem.
  rewrite !result_bind_ok, Hm, Hm'. simpl.
  rewrite HA, HB, HC, HA', HB', HC'. simpl.
  split; [reflexivity|]. split; [reflexivity|].
  pose proof ln_1000_pos as Hln.
  assert (C * ln 1000 <= C' * ln 1000)
    by (apply Rmult_le_compat_r; lra).
  lra.
Qed.

Lemma bofinger_capacity_monotone_witness :
  ∃ r r',
    solarpanel_rated_capacity_per_unit ∅ (ByDict Example.panel_bofinger)
      = Ok (VNum r) ∧
    solarpanel_rated_capacity_per_unit ∅ (ByDict Sample.panel_larger)
      = Ok (VNum r') ∧
    r <= r'.
Proof.
  apply (bofinger_capacity_monotone ∅ Example.panel_bofinger
           Sample.panel_larger 0 0.0005 0.0001 0.1 0.0006 0.0001);
    try reflexivity; lra.
Defined.

End MoreCapacity.

(** ** Loading turbine configurations *)

Section MoreLoading.
Local Open Scope R_scope.
Import Np Resource Loading.

Lemma dict_get_run l k d σ :
  heap σ !! l = Some d → dict_get l k σ = (Ok (d !! k), σ).
Proof. intros H. unfold dict_get. by rewrite H. Qed.

Lemma mret_run {A} (a : A) (σ : state) : (mret a : M A) σ = (Ok a, σ).
Proof. reflexivity. Qed.

Lemma lift_bind_run {A} (r : result A) σ :
  lift r σ = (r, σ).
Proof. reflexivity. Qed.

Lemma lift_lift {A B} (r : result A) (f : A → result B) σ :
  (lift r ≫= λ a, lift (f a)) σ = (r ≫= f, σ).
Proof. rewrite bind_unfold, lift_run. by destruct r. Qed.

Lemma finish_after (m : M (option (gmap string pyval))) σ r σ' :
  m σ = (r, σ') →
  (m ≫= λ c, lift (make_config c)) σ = (r ≫= make_config, σ').
Proof. intros H. rewrite bind_unfold, H. by destruct r. Qed.

(** The config made for [Resource.get_windturbineconfig] is the one of
    [make_config]. *)
Lemma get_windturbineconfig_make retrieve name :
  Resource.get_windturbineconfig retrieve name
    = retrieve name ≫= make_config.
Proof. reflexivity. Qed.

(** The dict branch on a dict tagged local. *)
Lemma local_branch_run download read l d v σ :
  heap σ !! l = Some d →
  d !! "source" = Some (VStr "local") →
  d !! "filename" = Some v →
  get_windturbineconfig download read (PDict l) σ
    = ((str_add v ".yaml" ≫= read) ≫= make_config, σ).
Proof.
  intros Hl Hs Hf. unfold get_windturbineconfig.
  erewrite bind_run by apply mret_run. cbn beta iota.
  apply finish_after.
  erewrite bind_run by (by apply dict_get_run).
  rewrite Hs. cbn [is_none].
  erewrite bind_run by apply mret_run.
  erewrite bind_run by (by eapply getitem_run).
  cbn [eq_str]. rewrite bool_decide_eq_false_2 by done.
  rewrite bool_decide_eq_true_2 by done.
  erewrite bind_run by (by eapply getitem_run).
  apply lift_lift.
Qed.

Lemma local_branch_no_filename download read l d σ :
  heap σ !! l = Some d →
  d !! "source" = Some (VStr "local") →
  d !! "filename" = None →
  get_windturbineconfig download read (PDict l) σ = (Raise KeyError, σ).
Proof.
  intros Hl Hs Hf. unfold get_windturbineconfig.
  erewrite bind_run by apply mret_run. cbn beta iota.
  apply bind_raise.
  erewrite bind_run by (by apply dict_get_run).
  rewrite Hs. cbn [is_none].
  erewrite bind_run by apply mret_run.
  erewrite bind_run by (by eapply getitem_run).
  cbn [eq_str]. rewrite bool_decide_eq_false_2 by done.
  rewrite bool_decide_eq_true_2 by done.
  apply bind_raise. rewrite (getitem_run' l "filename" d σ Hl).
  unfold getitem. by rewrite Hf.
Qed.

(** X12.  A turbine name without the prefix 'oedb:' is loaded from the yaml
    file of that name, [<name>.yaml], and from nowhere else: the database
    is not asked, nothing is logged, no dict object of the caller
    changes, and the result is that of [Resource.get_windturbineconfig]
    on the files. *)
Theorem local_name_loads_file download read name σ :
  String.prefix "oedb:" name = false →
  let r := get_windturbineconfig download read (PValue (VStr name)) σ in
  r.1 = Resource.get_windturbineconfig (λ n, read (n +:+ ".yaml")) name ∧
  log r.2 = log σ ∧
  ∀ l d, heap σ !! l = Some d → heap r.2 !! l = Some d.
Proof.
  intros Hpre r.
  assert (Hr : r = (read (name +:+ ".yaml") ≫= make_config,
                    State (<[fresh (dom (heap σ)) :=
                               <["filename" := VStr name]>
                                 (<["source" := VStr "local"]> ∅)]> (heap σ))
                          (log σ))).
  { unfold r, get_windturbineconfig. rewrite Hpre.
    erewrite bind_run.
    2:{ erewrite bind_run by apply new_dict_run. apply mret_run. }
    cbn beta iota.
    set (l := fresh (dom (heap σ))).
    set (σ1 := State _ _).
    pose proof (local_branch_run download read l _ (VStr name) σ1
                  (lookup_insert_eq _ _ _)) as Hrun.
    unfold get_windturbineconfig in Hrun.
    erewrite bind_run in Hrun by apply mret_run. cbn beta iota in Hrun.
    rewrite Hrun; [reflexivity| |].
    - rewrite lookup_insert_ne by done. apply lookup_insert_eq.
    - apply lookup_insert_eq. }
  rewrite Hr. cbn [fst snd heap log]. split; [reflexivity|].
  split; [reflexivity|].
  intros l d Hl. rewrite lookup_insert_ne; [done|]. apply fresh_ne. eauto.
Qed.

Lemma bind_cong {A B} (m m' : M A) (f : A → M B) σ σ' :
  m σ = m' σ' → (m ≫= f) σ = (m' ≫= f) σ'.
Proof. intros H. by rewrite !bind_unfold, H. Qed.

(** X13.  A turbine dict without a 'source' item, or with the item None, is
    changed by the call: the item 'source': 'oedb' is written into the
    caller's dict and the warning is logged, and only then is the
    database asked, with that dict. *)
Theorem untagged_dict_is_tagged_oedb download read l d σ :
  heap σ !! l = Some d →
  is_none (d !! "source") = true →
  let σ1 := State (<[l := <["source" := VStr "oedb"]> d]> (heap σ))
                  (log σ ++ [source_warning]) in
  get_windturbineconfig download read (PDict l) σ
    = (download (PDict l) ≫= λ c, lift (make_config c)) σ1.
Proof.
  intros Hl Hnone σ1. unfold get_windturbineconfig.
  erewrite bind_run by apply mret_run. cbn beta iota.
  apply bind_cong.
  erewrite bind_run by (by apply dict_get_run).
  rewrite Hnone.
  erewrite bind_run.
  2:{ erewrite bind_run by reflexivity.
      apply setitem_run. exact Hl. }
  cbn [heap log]. fold σ1.
  erewrite bind_run
    by (eapply getitem_run; [apply lookup_insert_eq|apply lookup_insert_eq]).
  cbn [eq_str]. rewrite bool_decide_eq_true_2 by done. reflexivity.
Qed.

(** X14.  What is neither a str nor a dict, and a dict whose 'source' is
    neither None, 'oedb' nor 'local', is rejected with ValueError and
    without any effect: no dict object changes and nothing is logged. *)
Theorem invalid_turbine_rejected download read turbine σ :
  (∃ v, turbine = PValue v ∧ ∀ s, v ≠ VStr s) ∨
  (∃ l d v, turbine = PDict l ∧ heap σ !! l = Some d ∧
            d !! "source" = Some v ∧
            v ≠ VNone ∧ v ≠ VStr "oedb" ∧ v ≠ VStr "local") →
  get_windturbineconfig download read turbine σ = (Raise ValueError, σ).
Proof.
  intros [(v & -> & Hv)|(l & d & v & -> & Hl & Hs & Hn & Ho & Hloc)];
    unfold get_windturbineconfig.
  - assert (Hpre : ∀ (k : option (gmap string pyval) * pyarg →
                        M (gmap string pyval)),
      (match PValue v with
       | PValue (VStr name) =>
           if String.prefix "oedb:" name
           then turbineconf ← download (PValue v);
                mret (turbineconf, PValue v)
           else l ← new_dict (<["filename" := VStr name]>
                                (<["source" := VStr "local"]> ∅));
                mret (None, PDict l)
       | _ => mret (None, PValue v)
       end ≫= k) σ = k (None, PValue v) σ).
    { intros k. destruct v as [r|a|s| ]; try reflexivity.
      by destruct (Hv s). }
    rewrite Hpre. cbn beta iota.
    erewrite bind_run by apply mret_run. reflexivity.
  - erewrite bind_run by apply mret_run. cbn beta iota.
    apply bind_raise.
    erewrite bind_run by (by apply dict_get_run).
    rewrite Hs.
    assert (is_none (Some v) = false) as -> by (by destruct v).
    erewrite bind_run by apply mret_run.
    rewrite (bind_run _ _ _ _ _ (getitem_run l "source" v d σ Hl Hs)).
    by rewrite !eq_str_false.
Qed.

(** X15.  A dict tagged 'local' names its file in the item 'filename': without
    that item the call raises KeyError, with an item that is not a str it
    raises TypeError, and with a str it reads the file of that name with
    '.yaml' appended.  The caller's dict is not changed. *)
Theorem local_dict_reads_filename download read l d σ :
  heap σ !! l = Some d →
  d !! "source" = Some (VStr "local") →
  (d !! "filename" = None →
   get_windturbineconfig download read (PDict l) σ = (Raise KeyError, σ)) ∧
  (∀ v, d !! "filename" = Some v → (∀ s, v ≠ VStr s) →
   get_windturbineconfig download read (PDict l) σ = (Raise TypeError, σ)) ∧
  (∀ s, d !! "filename" = Some (VStr s) →
   get_windturbineconfig download read (PDict l) σ
     = (read (s +:+ ".yaml") ≫= make_config, σ)).
Proof.
  intros Hl Hs. split; [|split].
  - intros Hf. exact (local_branch_no_filename download read l d σ Hl Hs Hf).
  - intros v Hf Hv. rewrite (local_branch_run download read l d v σ Hl Hs Hf).
    destruct v as [r|a|s| ]; try reflexivity. by destruct (Hv s).
  - intros s Hf. by rewrite (local_branch_run download read l d (VStr s) σ Hl Hs Hf).
Qed.

Lemma make_config_inv c d :
  make_config c = Ok d →
  dom d = ({["V"; "POW"; "hub_height"; "P"]} : gset string) ∧
  ∃ P, d !! "P" = Some (VNum P) ∧
       ∀ POW, d !! "POW" = Some (VArr POW) → Spec.maximum_of POW P.
Proof.
  intros H.
  assert (Hget : Resource.get_windturbineconfig (λ _, Ok c) "" = Ok d)
    by exact H.
  split.
  - unfold make_config, getitem in H.
    destruct c as [conf|]; [|discriminate].
    destruct (conf !! "V") as [v|]; simpl in H; [|discriminate].
    destruct (conf !! "POW") as [pw|]; simpl in H; [|discriminate].
    destruct (conf !! "HUB_HEIGHT") as [hub|]; simpl in H; [|discriminate].
    destruct (np_max pw) as [P|e]; simpl in H; [|discriminate].
    injection H as <-. rewrite !dom_insert_L, dom_empty_L. set_solver.
  - unfold make_config, getitem in H.
    destruct c as [conf|]; [|discriminate].
    destruct (conf !! "V") as [v|]; simpl in H; [|discriminate].
    destruct (conf !! "POW") as [pw|]; simpl in H; [|discriminate].
    destruct (conf !! "HUB_HEIGHT") as [hub|]; simpl in H; [|discriminate].
    destruct (np_max pw) as [P|e] eqn:HP; simpl in H; [|discriminate].
    exists P. split.
    + injection H as <-. by simplify_map_eq.
    + intros POW HPOW.
      destruct (get_windturbineconfig_max _ _ _ _ Hget HPOW)
        as (m & Hm & Hmax).
      injection H as <-. simplify_map_eq. done.
Qed.

(** X16.  Whatever the way a config was found, the dict the call returns has
    exactly the items V, POW, hub_height and P (other items of the raw
    configuration are dropped), and P is the maximum of POW. *)
Theorem loaded_config_shape download read turbine σ d :
  (get_windturbineconfig download read turbine σ).1 = Ok d →
  dom d = ({["V"; "POW"; "hub_height"; "P"]} : gset string) ∧
  ∃ P, d !! "P" = Some (VNum P) ∧
       ∀ POW, d !! "POW" = Some (VArr POW) → Spec.maximum_of POW P.
Proof.
  unfold get_windturbineconfig. rewrite bind_unfold.
  destruct (_ σ) as [[[tc t]|e] σ1]; [|discriminate].
  rewrite bind_unfold.
  destruct (_ σ1) as [[c|e] σ2]; [|discriminate].
  rewrite lift_run. cbn [fst]. apply make_config_inv.
Qed.

End MoreLoading.

Section LoadingSamples.
Local Open Scope R_scope.
Import Np Resource Loading.

Lemma local_name_loads_file_witness :
  let r := get_windturbineconfig Sample.no_download Sample.read_yaml
             (PValue (VStr "example")) Sample.state2 in
  r.1 = Resource.get_windturbineconfig
          (λ n, Sample.read_yaml (n +:+ ".yaml")) "example" ∧
  log r.2 = log Sample.state2 ∧
  ∀ l d, heap Sample.state2 !! l = Some d → heap r.2 !! l = Some d.
Proof.
  apply (local_name_loads_file Sample.no_download Sample.read_yaml).
  reflexivity.
Defined.

Lemma untagged_dict_is_tagged_oedb_witness :
  get_windturbineconfig Sample.no_download Sample.read_yaml
    (PDict 1%positive) Sample.state2
  = (Sample.no_download (PDict 1%positive) ≫= λ c, lift (make_config c))
      (State (<[1%positive := <["source" := VStr "oedb"]>
                                Sample.untagged_query]> (heap Sample.state2))
             (log Sample.state2 ++ [source_warning])).
Proof.
  apply (untagged_dict_is_tagged_oedb Sample.no_download Sample.read_yaml
           1%positive Sample.untagged_query Sample.state2); reflexivity.
Defined.

Lemma invalid_turbine_rejected_witness :
  get_windturbineconfig Sample.no_download Sample.read_yaml
    (PDict 2%positive) Sample.state2 = (Raise ValueError, Sample.state2) ∧
  get_windturbineconfig Sample.no_download Sample.read_yaml
    (PValue VNone) Sample.state2 = (Raise ValueError, Sample.state2).
Proof.
  split.
  - apply (invalid_turbine_rejected Sample.no_download Sample.read_yaml).
    right. exists 2%positive, Sample.bad_source, (VStr "web").
    repeat split; try reflexivity; discriminate.
  - apply (invalid_turbine_rejected Sample.no_download Sample.read_yaml).
    left. exists VNone. split; [reflexivity|]. intros s. discriminate.
Defined.

Lemma local_dict_reads_filename_witness :
  get_windturbineconfig Sample.no_download Sample.read_yaml
    (PDict 3%positive) Sample.state2
  = (Sample.read_yaml ("example" +:+ ".yaml") ≫= make_config, Sample.state2).
Proof.
  apply (local_dict_reads_filename Sample.no_download Sample.read_yaml
           3%positive Sample.local_query Sample.state2); reflexivity.
Defined.

Lemma sample_loads :
  Resource.get_windturbineconfig
    (λ n, Sample.read_yaml (n +:+ ".yaml")) "example"
  = Ok (<["V" := VArr Example.V]> (<["POW" := VArr Example.POW]>
         (<["hub_height" := VNum 80]> (<["P" := VNum 800]> ∅)))).
Proof.
  assert (HP : np_max (VArr Example.POW) = Ok 800).
  { unfold np_max, amax, Example.POW. cbn [fold_left].
    rewrite (Rmax_right 0 0), (Rmax_right 0 100), (Rmax_right 100 400),
      (Rmax_right 400 800), (Rmax_right 800 800) by lra.
    reflexivity. }
  unfold Resource.get_windturbineconfig.
  replace (Sample.read_yaml ("example" +:+ ".yaml"))
    with (Ok (Some Example.turbineconf)) by reflexivity.
  rewrite result_bind_ok.
  replace (getitem Example.turbineconf "V") with (Ok (VArr Example.V))
    by reflexivity.
  replace (getitem Example.turbineconf "POW") with (Ok (VArr Example.POW))
    by reflexivity.
  replace (getitem Example.turbineconf "HUB_HEIGHT") with (Ok (VNum 80))
    by reflexivity.
  rewrite !result_bind_ok, HP, result_bind_ok. reflexivity.
Qed.

Lemma loaded_config_shape_witness :
  let d : gmap string pyval :=
    <["V" := VArr Example.V]> (<["POW" := VArr Example.POW]>
      (<["hub_height" := VNum 80]> (<["P" := VNum 800]> ∅))) in
  dom d = ({["V"; "POW"; "hub_height"; "P"]} : gset string) ∧
  ∃ P, d !! "P" = Some (VNum P) ∧
       ∀ POW, d !! "POW" = Some (VArr POW) → Spec.maximum_of POW P.
Proof.
  apply (loaded_config_shape Sample.no_download Sample.read_yaml
           (PValue (VStr "example")) Sample.state2).
  destruct (local_name_loads_file Sample.no_download Sample.read_yaml
              "example" Sample.state2 eq_refl) as (H & _).
  rewrite H. apply sample_loads.
Defined.

End LoadingSamples.

(** ** The registries *)

Section Registry.
Import Resource Loading.




Lemma registry_acc listing : ∀ (m : gmap string string) k,
  foldl (λ m t, <[strip5 t := strip5 t]> m) m listing !! k
    = if decide (k ∈ strip5 <$> listing) then Some k else m !! k.
Proof.
  induction listing as [|t listing IH]; intros m k.
  - cbn [foldl]. rewrite fmap_nil.
    destruct (decide (k ∈ [])) as [H|H]; [by apply elem_of_nil in H|done].
  - cbn [foldl]. rewrite IH, fmap_cons.
    destruct (decide (k ∈ strip5 <$> listing)) as [Hin|Hnin].
    + rewrite decide_True; [done|]. by apply list_elem_of_further.
    + destruct (decide (k = strip5 t)) as [->|Hne].
      * rewrite lookup_insert_eq, decide_True; [done|].
        apply list_elem_of_here.
      * rewrite lookup_insert_ne by done. rewrite decide_False; [done|].
        intros [?|?]%elem_of_cons; done.
Qed.

(** X17.  The registry holds, for each file of the listing and for nothing
    else, the file name without its last five characters, as key and as
    value: whatever the extension of the file is. *)
Theorem registry_entries listing k v :
  registry listing !! k = Some v ↔
  v = k ∧ ∃ t, t ∈ listing ∧ k = strip5 t.
Proof.
  unfold registry. rewrite registry_acc, lookup_empty.
  destruct (decide (k ∈ strip5 <$> listing)) as [H|H].
  - apply list_elem_of_fmap in H as (t & -> & Ht). split.
    + intros [= <-]. eauto.
    + by intros [-> _].
  - split; [done|]. intros [_ (t & Ht & ->)]. destruct H.
    apply list_elem_of_fmap. eauto.
Qed.



End Registry.
